(** * ML model decorators: a shallow embedding

    The development follows the Python code of the repository's blog post:
    the base class [MLModelDecorator] (a forwarding wrapper around an
    [MLModel]) and the concrete [PredictionIDDecorator] (which widens both
    schemas with a [prediction_id] field and attaches an identifier to every
    prediction).

    Python objects live in a store; a decorator holds a reference to the
    object it wraps, so reads always go through the store at access time.
    Pydantic model classes live in a second store: [create_model] allocates a
    new class on every call.  Exceptions are an explicit result type and
    every method is a computation in a state-and-exception monad.  The depth
    of nested method calls is bounded by a call budget, as by the
    interpreter's recursion limit. *)

From Stdlib Require Import NArith ZArith String Ascii List Lia DecimalString.
From stdpp Require Import base option list gmap strings.

Open Scope string_scope.
Open Scope list_scope.
Open Scope nat_scope.

(** ** Values, schemas and instances *)

(** Field values of pydantic instances.  Floating point payloads are not
    represented. *)
Inductive value :=
| VNone
| VBool (b : bool)
| VInt (z : Z)
| VStr (s : string).

Inductive ty := TBool | TInt | TStr.

Inductive constraint :=
| Minimum (lo : Z)
| Maximum (hi : Z).

(** What pydantic records about one field: the annotated type, whether
    [None] is accepted ([Optional]), whether the field is required, its
    default, and the declared constraints. *)
Record descriptor := Descriptor {
  ftype : ty;
  allow_none : bool;
  required : bool;
  default : value;
  constraints : list constraint
}.

(** A pydantic model class: its [__name__] and the ordered mapping from
    field names to descriptors. *)
Record schema := Schema {
  sname : string;
  sfields : list (string * descriptor)
}.

(** An instance of a pydantic class: the class it was built from and its
    attributes, in field order. *)
Record instance := Instance {
  cls : nat;
  fields : list (string * value)
}.

#[global] Instance value_eq_dec : EqDecision value.
Proof. solve_decision. Defined.
#[global] Instance ty_eq_dec : EqDecision ty.
Proof. solve_decision. Defined.
#[global] Instance constraint_eq_dec : EqDecision constraint.
Proof. solve_decision. Defined.
#[global] Instance descriptor_eq_dec : EqDecision descriptor.
Proof. solve_decision. Defined.
#[global] Instance schema_eq_dec : EqDecision schema.
Proof. solve_decision. Defined.

(** Ordered string-keyed mappings (Python dicts whose order is observable). *)
Fixpoint assoc {A} (k : string) (l : list (string * A)) : option A :=
  match l with
  | [] => None
  | (k', v) :: l' => if decide (k = k') then Some v else assoc k l'
  end.

(** [d[k] = v] on an ordered dict: an existing key keeps its position, a new
    key goes last. *)
Fixpoint set_item {A} (k : string) (v : A) (l : list (string * A))
  : list (string * A) :=
  match l with
  | [] => [(k, v)]
  | (k', v') :: l' =>
      if decide (k = k') then (k, v) :: l' else (k', v') :: set_item k v l'
  end.

Definition keys {A} (l : list (string * A)) : list string := map fst l.

(** ** Exceptions and results *)

Inductive exn :=
| ValueError (msg : string)
| AttributeError (msg : string)
| KeyError (key : string)
| TypeError (msg : string)
| ValidationError (field : string)
| RecursionError
| SystemError (msg : string)
| ModelError (msg : string).

Inductive result (A : Type) :=
| Ok (a : A)
| Raise (e : exn).
Arguments Ok {A} a.
Arguments Raise {A} e.

(** ** The store *)

(** What a name can be bound to in a decorator's [__dict__] or passed as the
    [model] argument. *)
Inductive pyval :=
| PNone
| PRef (r : nat)
| PDict (kw : list (string * value)).

(** A concrete [MLModel]: the component at the end of a chain.  Its
    prediction logic is a function supplied by the model's author. *)
Record model := Model {
  m_display_name : string;
  m_qualified_name : string;
  m_description : string;
  m_version : string;
  m_input_schema : nat;
  m_output_schema : nat;
  m_predict : instance -> result instance
}.

Inductive klass := KMLModelDecorator | KPredictionIDDecorator.

Inductive obj :=
| OModel (m : model)
| ODecorator (k : klass) (dict : gmap string pyval)
| OOther.

Record world := World {
  objs : list obj;
  classes : list schema;
  draws : nat;
  urandom : nat -> N
}.

(** ** The monad of method bodies *)

Definition M (A : Type) : Type := world -> result A * world.

Definition ret {A} (a : A) : M A := fun σ => (Ok a, σ).
Definition raise {A} (e : exn) : M A := fun σ => (Raise e, σ).
Definition bind {A B} (m : M A) (k : A -> M B) : M B :=
  fun σ => match m σ with
           | (Ok a, σ') => k a σ'
           | (Raise e, σ') => (Raise e, σ')
           end.
Definition lift {A} (r : result A) : M A := fun σ => (r, σ).

Declare Scope py_scope.
Delimit Scope py_scope with py.
Notation "x <- m ;; k" := (bind m (fun x => k))
  (at level 100, m at next level, right associativity) : py_scope.
Notation "m ;;; k" := (bind m (fun _ => k))
  (at level 100, right associativity) : py_scope.
Open Scope py_scope.

(** ** Store primitives *)

(** A reference held by a Python object always points to a live object; a
    lookup outside the store is reported as an interpreter error. *)
Definition deref (r : nat) : M obj := fun σ =>
  match objs σ !! r with
  | Some o => (Ok o, σ)
  | None => (Raise (SystemError "dangling object reference"), σ)
  end.

Definition get_class (c : nat) : M schema := fun σ =>
  match classes σ !! c with
  | Some sch => (Ok sch, σ)
  | None => (Raise (SystemError "dangling class reference"), σ)
  end.

(** Every class statement or [create_model] call makes a new class object. *)
Definition new_class (sch : schema) : M nat := fun σ =>
  (Ok (length (classes σ)),
   World (objs σ) (classes σ ++ [sch]) (draws σ) (urandom σ)).

(** [object.__new__]: a fresh instance with an empty [__dict__]. *)
Definition new_object (k : klass) : M nat := fun σ =>
  (Ok (length (objs σ)),
   World (objs σ ++ [ODecorator k ∅]) (classes σ) (draws σ) (urandom σ)).

(** [self.__dict__[key] = v] *)
Definition dict_setitem (self : nat) (key : string) (v : pyval) : M unit :=
  fun σ =>
    match objs σ !! self with
    | Some (ODecorator k d) =>
        (Ok tt,
         World (<[self := ODecorator k (<[key := v]> d)]> (objs σ))
               (classes σ) (draws σ) (urandom σ))
    | _ => (Raise (SystemError "not a decorator instance"), σ)
    end.

(** [self.__dict__[key]] *)
Definition dict_getitem (self : nat) (key : string) : M pyval := fun σ =>
  match objs σ !! self with
  | Some (ODecorator _ d) =>
      match d !! key with
      | Some v => (Ok v, σ)
      | None => (Raise (KeyError key), σ)
      end
  | _ => (Raise (SystemError "not a decorator instance"), σ)
  end.

(** [self.<key>] for a name that is neither a property nor a method: the
    instance [__dict__] is consulted. *)
Definition getattr_self (self : nat) (key : string) : M pyval := fun σ =>
  match objs σ !! self with
  | Some (ODecorator _ d) =>
      match d !! key with
      | Some v => (Ok v, σ)
      | None => (Raise (AttributeError
                   ("object has no attribute '" +:+ key +:+ "'")), σ)
      end
  | _ => (Raise (SystemError "not a decorator instance"), σ)
  end.

(** ** Pydantic: validation, instantiation and [create_model] *)

(** Pydantic 1.x converts a value to the declared type of the field where it
    can.  Strings are taken as sequences of characters with a code below
    256. *)

(** [str(z)] and [str(b)]; the limit that recent interpreters put on the
    number of digits of a conversion is not represented. *)
Definition str_of_int (z : Z) : string := NilZero.string_of_int (Z.to_int z).

Definition str_of_bool (b : bool) : string := if b then "True" else "False".

(** The characters that [int] skips at both ends of a string: the six
    ASCII blanks, and the other white space below 256. *)
Definition is_space (c : ascii) : bool :=
  let n := nat_of_ascii c in
  ((9 <=? n) && (n <=? 13)) || (n =? 32) || (n =? 133) || (n =? 160).

Fixpoint lstrip (l : list ascii) : list ascii :=
  match l with
  | c :: l' => if is_space c then lstrip l' else l
  | [] => []
  end.

Definition strip (l : list ascii) : list ascii := rev (lstrip (rev (lstrip l))).

Definition digit_value (c : ascii) : option Z :=
  let n := nat_of_ascii c in
  if (48 <=? n) && (n <=? 57) then Some (Z.of_nat (n - 48)) else None.

(** Decimal digits, with single underscores allowed between digits. *)
Fixpoint parse_digits (acc : Z) (after_digit : bool) (l : list ascii)
  : option Z :=
  match l with
  | [] => if after_digit then Some acc else None
  | c :: l' =>
      if decide (c = "_"%char)
      then (if after_digit then parse_digits acc false l' else None)
      else match digit_value c with
           | Some d => parse_digits (10 * acc + d)%Z true l'
           | None => None
           end
  end.

(** [int(s)], [None] standing for [ValueError]. *)
Definition int_of_str (s : string) : option Z :=
  match strip (list_ascii_of_string s) with
  | c :: l' =>
      if decide (c = "+"%char) then parse_digits 0 false l'
      else if decide (c = "-"%char) then Z.opp <$> parse_digits 0 false l'
      else parse_digits 0 false (c :: l')
  | [] => None
  end.

Definition lower_char (c : ascii) : ascii :=
  let n := nat_of_ascii c in
  if (65 <=? n) && (n <=? 90) then ascii_of_nat (n + 32) else c.

(** [s.lower()], as far as the letters A to Z are concerned. *)
Definition lower (s : string) : string :=
  string_of_list_ascii (map lower_char (list_ascii_of_string s)).

(** The validators of the three field types; [None] stands for the error
    that the validator raises. *)
Definition str_validator (v : value) : option value :=
  match v with
  | VStr s => Some (VStr s)
  | VInt z => Some (VStr (str_of_int z))
  | VBool b => Some (VStr (str_of_bool b))
  | VNone => None
  end.

Definition int_validator (v : value) : option value :=
  match v with
  | VInt z => Some (VInt z)
  | VBool b => Some (VInt (if b then 1 else 0))
  | VStr s => VInt <$> int_of_str s
  | VNone => None
  end.

Definition bool_validator (v : value) : option value :=
  match v with
  | VBool b => Some (VBool b)
  | VInt z =>
      if decide (z = 1%Z) then Some (VBool true)
      else if decide (z = 0%Z) then Some (VBool false) else None
  | VStr s =>
      if bool_decide (lower s ∈ ["1"; "on"; "t"; "true"; "y"; "yes"])
      then Some (VBool true)
      else if bool_decide (lower s ∈ ["0"; "off"; "f"; "false"; "n"; "no"])
      then Some (VBool false) else None
  | VNone => None
  end.

Definition type_validator (t : ty) : value -> option value :=
  match t with
  | TStr => str_validator
  | TInt => int_validator
  | TBool => bool_validator
  end.

(** The bounds are checked on the converted value. *)
Definition check_constraint (c : constraint) (v : value) : bool :=
  match c, v with
  | Minimum lo, VInt z => (lo <=? z)%Z
  | Maximum hi, VInt z => (z <=? hi)%Z
  | _, _ => true
  end.

(** Validation of one field against what the caller supplied, if anything:
    a missing value is an error for a required field and the default
    otherwise; [None] passes only where it is allowed; any other value goes
    through the validator of the field's type and then the bounds. *)
Definition validate_field (name : string) (d : descriptor)
    (given : option value) : result value :=
  match given with
  | None => if required d then Raise (ValidationError name) else Ok (default d)
  | Some VNone =>
      if allow_none d then Ok VNone else Raise (ValidationError name)
  | Some v =>
      match type_validator (ftype d) v with
      | Some v' =>
          if forallb (fun c => check_constraint c v') (constraints d)
          then Ok v' else Raise (ValidationError name)
      | None => Raise (ValidationError name)
      end
  end.

(** Keyword arguments that name no field are ignored (pydantic's default). *)
Fixpoint validate_model (fs : list (string * descriptor))
    (kwargs : list (string * value)) : result (list (string * value)) :=
  match fs with
  | [] => Ok []
  | (name, d) :: fs' =>
      match validate_field name d (assoc name kwargs) with
      | Raise e => Raise e
      | Ok v =>
          match validate_model fs' kwargs with
          | Raise e => Raise e
          | Ok rest => Ok ((name, v) :: rest)
          end
      end
  end.

(** [f(k=v, **d)]: a keyword given twice is a [TypeError] at the call. *)
Definition call_kwargs (explicit star : list (string * value))
  : result (list (string * value)) :=
  match List.find (fun k => bool_decide (k ∈ keys star)) (keys explicit) with
  | None => Ok (explicit ++ star)
  | Some k =>
      Raise (TypeError ("got multiple values for keyword argument '" +:+ k +:+ "'"))
  end.

(** Calling a pydantic class [c] with keyword arguments. *)
Definition new_instance (c : nat) (kwargs : list (string * value)) : M instance :=
  sch <- get_class c ;;
  fs <- lift (validate_model (sfields sch) kwargs) ;;
  ret (Instance c fs).

(** [c.__name__] *)
Definition class_name (c : nat) : M string :=
  sch <- get_class c ;; ret (sname sch).

(** [create_model(name, <field>=(type, default), __base__=base)]: a new
    class that inherits the fields of [base]; the declared field replaces an
    inherited field of the same name in place and otherwise comes last. *)
Definition create_model (name : string) (field : string * descriptor)
    (base : nat) : M nat :=
  sch <- get_class base ;;
  new_class (Schema name (set_item (fst field) (snd field) (sfields sch))).

(** [p.dict()] *)
Definition dict (p : instance) : list (string * value) := fields p.

(** ** [uuid4] and [str] of a UUID (Python's standard library) *)

Definition hex_digit (d : N) : ascii :=
  nth (N.to_nat d) (list_ascii_of_string "0123456789abcdef") "0"%char.

(** ['%0<len>x' % x] for [x] below [16 ^ len]. *)
Fixpoint hex_digits (len : nat) (x : N) : list ascii :=
  match len with
  | O => []
  | S n => hex_digits n (N.shiftr x 4) ++ [hex_digit (N.land x 15)]
  end.

Definition slice {A} (lo hi : nat) (l : list A) : list A :=
  take (hi - lo) (drop lo l).

(** [UUID.__str__]: 8-4-4-4-12 hexadecimal digits separated by dashes. *)
Definition UUID_str (int : N) : string :=
  let hex := hex_digits 32 int in
  string_of_list_ascii
    (slice 0 8 hex ++ "-"%char :: slice 8 12 hex ++ "-"%char ::
     slice 12 16 hex ++ "-"%char :: slice 16 20 hex ++ "-"%char ::
     drop 20 hex).

(** [UUID(bytes=b, version=4)]: the variant and version bits are forced. *)
Definition UUID_v4 (int : N) : N :=
  let int := N.ldiff int (N.shiftl 0xc000 48) in
  let int := N.lor int (N.shiftl 0x8000 48) in
  let int := N.ldiff int (N.shiftl 0xf000 64) in
  N.lor int (N.shiftl 4 76).

(** [int.from_bytes(os.urandom(16), 'big')]: the next sixteen bytes of the
    system's random source. *)
Definition os_urandom16 : M N := fun σ =>
  (Ok (urandom σ (draws σ) mod 2 ^ 128)%N,
   World (objs σ) (classes σ) (S (draws σ)) (urandom σ)).

Definition uuid4 : M N :=
  b <- os_urandom16 ;; ret (UUID_v4 b).

(** ** The capability surface *)

Inductive str_attr := DisplayName | QualifiedName | Description | Version.
Inductive schema_attr := InputSchema | OutputSchema.

Definition str_attr_name (a : str_attr) : string :=
  match a with
  | DisplayName => "display_name"
  | QualifiedName => "qualified_name"
  | Description => "description"
  | Version => "version"
  end.

Definition schema_attr_name (a : schema_attr) : string :=
  match a with
  | InputSchema => "input_schema"
  | OutputSchema => "output_schema"
  end.

Definition model_str (a : str_attr) (m : model) : string :=
  match a with
  | DisplayName => m_display_name m
  | QualifiedName => m_qualified_name m
  | Description => m_description m
  | Version => m_version m
  end.

Definition model_schema (a : schema_attr) (m : model) : nat :=
  match a with
  | InputSchema => m_input_schema m
  | OutputSchema => m_output_schema m
  end.

(** The objects that are instances of [MLModel]: concrete models and
    decorators ([MLModelDecorator] subclasses [MLModel]). *)
Definition is_MLModel (o : obj) : bool :=
  match o with
  | OModel _ | ODecorator _ _ => true
  | OOther => false
  end.

(** [isinstance(v, MLModel)] *)
Definition isinstance_MLModel (v : pyval) : M bool :=
  match v with
  | PRef r => o <- deref r ;; ret (is_MLModel o)
  | _ => ret false
  end.

Definition no_attribute (v : pyval) (name : string) : exn :=
  match v with
  | PNone => AttributeError ("'NoneType' object has no attribute '" +:+ name +:+ "'")
  | PDict _ => AttributeError ("'dict' object has no attribute '" +:+ name +:+ "'")
  | PRef _ => AttributeError ("object has no attribute '" +:+ name +:+ "'")
  end.

(** ** class MLModelDecorator(MLModel)

    The methods take the late-bound operations on the wrapped object
    ([<wrapped>.<property>] and [<wrapped>.predict]) as arguments; they are
    tied to the store by the dispatch functions below. *)
Module MLModelDecorator.

Definition __init__ (self : nat) (model : pyval)
    (kwargs : list (string * value)) : M unit :=
  bad <- match model with
         | PNone => ret false
         | _ => is_model <- isinstance_MLModel model ;; ret (negb is_model)
         end ;;
  if (bad : bool)
  then raise (ValueError
    "Only objects of type MLModel can be wrapped with MLModelDecorator instances.")
  else
    dict_setitem self "_model" model ;;;
    dict_setitem self "_configuration" (PDict kwargs).

Section Forwarding.
Variable getattr_str : str_attr -> pyval -> M string.
Variable getattr_schema : schema_attr -> pyval -> M nat.
Variable call_predict : pyval -> instance -> M instance.

Definition display_name (self : nat) : M string :=
  m <- dict_getitem self "_model" ;; getattr_str DisplayName m.

Definition qualified_name (self : nat) : M string :=
  m <- dict_getitem self "_model" ;; getattr_str QualifiedName m.

Definition description (self : nat) : M string :=
  m <- dict_getitem self "_model" ;; getattr_str Description m.

Definition version (self : nat) : M string :=
  m <- dict_getitem self "_model" ;; getattr_str Version m.

Definition input_schema (self : nat) : M nat :=
  m <- dict_getitem self "_model" ;; getattr_schema InputSchema m.

Definition output_schema (self : nat) : M nat :=
  m <- dict_getitem self "_model" ;; getattr_schema OutputSchema m.

Definition predict (self : nat) (data : instance) : M instance :=
  m <- dict_getitem self "_model" ;; call_predict m data.
End Forwarding.

End MLModelDecorator.

(** ** class PredictionIDDecorator(MLModelDecorator) *)
Module PredictionIDDecorator.

Definition decorator_description : string :=
  " This model also has an optional input called 'prediction_id' that accepts an UUID string to uniquely identify the prediction returned. If the prediction id is not provided, a UUID is generated and returned in a field called 'prediction_id' in the model output.".

(** [prediction_id=(Optional[str], None)] *)
Definition input_field : string * descriptor :=
  ("prediction_id", Descriptor TStr true false VNone []).

(** [prediction_id=(str, ...)] *)
Definition output_field : string * descriptor :=
  ("prediction_id", Descriptor TStr false true VNone []).

Section Overrides.
Variable getattr_str : str_attr -> pyval -> M string.
Variable getattr_schema : schema_attr -> pyval -> M nat.
Variable call_predict : pyval -> instance -> M instance.
(** [self.output_schema], read inside [predict]. *)
Variable self_output_schema : nat -> M nat.

Definition description (self : nat) : M string :=
  m <- getattr_self self "_model" ;;
  d <- getattr_str Description m ;;
  ret (d +:+ decorator_description).

Definition input_schema (self : nat) : M nat :=
  m <- getattr_self self "_model" ;;
  input_schema <- getattr_schema InputSchema m ;;
  name <- class_name input_schema ;;
  create_model name input_field input_schema.

Definition output_schema (self : nat) : M nat :=
  m <- getattr_self self "_model" ;;
  output_schema <- getattr_schema OutputSchema m ;;
  name <- class_name output_schema ;;
  create_model name output_field output_schema.

Definition predict (self : nat) (data : instance) : M instance :=
  prediction_id <-
    match assoc "prediction_id" (fields data) with
    | Some VNone | None => u <- uuid4 ;; ret (VStr (UUID_str u))
    | Some v => ret v
    end ;;
  m <- getattr_self self "_model" ;;
  prediction <- call_predict m data ;;
  c <- self_output_schema self ;;
  kwargs <- lift (call_kwargs [("prediction_id", prediction_id)] (dict prediction)) ;;
  new_instance c kwargs.
End Overrides.

End PredictionIDDecorator.

(** ** Method resolution and late binding *)

Definition str_method (k : klass) (a : str_attr)
  : (str_attr -> pyval -> M string) -> nat -> M string :=
  match k, a with
  | KPredictionIDDecorator, Description => PredictionIDDecorator.description
  | _, DisplayName => MLModelDecorator.display_name
  | _, QualifiedName => MLModelDecorator.qualified_name
  | _, Description => MLModelDecorator.description
  | _, Version => MLModelDecorator.version
  end.

Definition schema_method (k : klass) (a : schema_attr)
  : (schema_attr -> pyval -> M nat) -> nat -> M nat :=
  match k, a with
  | KMLModelDecorator, InputSchema => MLModelDecorator.input_schema
  | KMLModelDecorator, OutputSchema => MLModelDecorator.output_schema
  | KPredictionIDDecorator, InputSchema => PredictionIDDecorator.input_schema
  | KPredictionIDDecorator, OutputSchema => PredictionIDDecorator.output_schema
  end.

(** [target.<a>] for one of the four string properties.  Reading a property
    of a decorator enters its getter, which takes one unit of [fuel]. *)
Fixpoint getattr_str (fuel : nat) (a : str_attr) (target : pyval) : M string :=
  match target with
  | PRef r =>
      o <- deref r ;;
      match o with
      | OModel m => ret (model_str a m)
      | ODecorator k _ =>
          match fuel with
          | O => raise RecursionError
          | S n => str_method k a (getattr_str n) r
          end
      | OOther => raise (no_attribute target (str_attr_name a))
      end
  | _ => raise (no_attribute target (str_attr_name a))
  end.

(** [target.input_schema] and [target.output_schema]. *)
Fixpoint getattr_schema (fuel : nat) (a : schema_attr) (target : pyval) : M nat :=
  match target with
  | PRef r =>
      o <- deref r ;;
      match o with
      | OModel m => ret (model_schema a m)
      | ODecorator k _ =>
          match fuel with
          | O => raise RecursionError
          | S n => schema_method k a (getattr_schema n) r
          end
      | OOther => raise (no_attribute target (schema_attr_name a))
      end
  | _ => raise (no_attribute target (schema_attr_name a))
  end.

(** [target.predict(data=data)]. *)
Fixpoint predict (fuel : nat) (target : pyval) (data : instance) : M instance :=
  match target with
  | PRef r =>
      o <- deref r ;;
      match o with
      | OModel m => lift (m_predict m data)
      | ODecorator k _ =>
          match fuel with
          | O => raise RecursionError
          | S n =>
              match k with
              | KMLModelDecorator => MLModelDecorator.predict (predict n) r data
              | KPredictionIDDecorator =>
                  PredictionIDDecorator.predict (predict n)
                    (fun self => getattr_schema n OutputSchema (PRef self)) r data
              end
          end
      | OOther => raise (no_attribute target "predict")
      end
  | _ => raise (no_attribute target "predict")
  end.

(** [k(model, **kwargs)]: allocate, initialise, return the new instance.
    The caller can only pass objects that exist before the call. *)
Definition construct (k : klass) (model : pyval)
    (kwargs : list (string * value)) : M nat :=
  self <- new_object k ;;
  MLModelDecorator.__init__ self model kwargs ;;;
  ret self.

(** ** Properties used in the statements *)










(** The exception raised by [__init__] for a wrapped object of the wrong
    type. *)
Definition wrap_error : exn :=
  ValueError "Only objects of type MLModel can be wrapped with MLModelDecorator instances.".

(** The field that [PredictionIDDecorator] gives to [create_model] for each
    of the two schema properties, and the class that comes out. *)
Definition pid_field (a : schema_attr) : string * descriptor :=
  match a with
  | InputSchema => PredictionIDDecorator.input_field
  | OutputSchema => PredictionIDDecorator.output_field
  end.

Definition derived (a : schema_attr) (sch : schema) : schema :=
  Schema (sname sch) (set_item "prediction_id" (snd (pid_field a)) (sfields sch)).


(** The world right after one read of the random source. *)
Definition after_draw (σ : world) : world :=
  World (objs σ) (classes σ) (S (draws σ)) (urandom σ).

(** The world after one more class has been created. *)
Definition with_class (σ : world) (sch : schema) : world :=
  World (objs σ) (classes σ ++ [sch]) (draws σ) (urandom σ).

(** The identifier that the caller supplied with the input, if any
    ([hasattr(data, "prediction_id") and data.prediction_id is not None]). *)
Definition supplied_id (data : instance) : option value :=
  match assoc "prediction_id" (fields data) with
  | Some VNone | None => None
  | Some v => Some v
  end.

(** The UUID that the next call of [uuid4] returns. *)
Definition next_uuid (σ : world) : N :=
  UUID_v4 (urandom σ (draws σ) mod 2 ^ 128)%N.

(** The identifier that [PredictionIDDecorator.predict] settles on before it
    calls the wrapped component, and the world in which that call starts. *)
Definition chosen_id (data : instance) (σ : world) : value * world :=
  match supplied_id data with
  | Some v => (v, σ)
  | None => (VStr (UUID_str (next_uuid σ)), after_draw σ)
  end.

(** The last two lines of [PredictionIDDecorator.predict], for the decorator
    at [d]: the wrapped prediction is rebuilt as an instance of
    [self.output_schema] with the identifier added. *)
Definition wrap_prediction (n : nat) (d : nat) (pid : value)
    (prediction : instance) : M instance :=
  c <- getattr_schema n OutputSchema (PRef d) ;;
  kwargs <- lift (call_kwargs [("prediction_id", pid)] (dict prediction)) ;;
  new_instance c kwargs.

(** Reading a schema property may create classes and does nothing else. *)
Record schema_frame (σ σ' : world) : Prop := SchemaFrame {
  sf_objs : objs σ' = objs σ;
  sf_draws : draws σ' = draws σ;
  sf_urandom : urandom σ' = urandom σ;
  sf_classes : classes σ `prefix_of` classes σ'
}.

(** [σ'] is reachable from [σ] by reading properties and predicting: the
    objects are the same, existing classes are untouched (new ones may have
    been created) and the random source has only advanced. *)
Record extends (σ σ' : world) : Prop := Extends {
  ext_objs : objs σ' = objs σ;
  ext_urandom : urandom σ' = urandom σ;
  ext_draws : draws σ ≤ draws σ';
  ext_classes : classes σ `prefix_of` classes σ'
}.

(** Where the chain of [_model] links that starts at an object ends. *)
Inductive chain_end := AtModel (r : nat) | AtUnbound (r : nat).

Fixpoint follow_chain (fuel : nat) (os : list obj) (r : nat) : option chain_end :=
  match os !! r with
  | Some (OModel _) => Some (AtModel r)
  | Some (ODecorator _ d) =>
      match d !! "_model" with
      | Some (PRef w) =>
          match fuel with
          | O => None
          | S n => follow_chain n os w
          end
      | Some (PDict _) => None
      | Some PNone | None => Some (AtUnbound r)
      end
  | Some OOther | None => None
  end.

(** A decorator's wrapped reference points to an older instance of
    [MLModel]. *)
Definition link_ok (os : list obj) (r : nat) (o : obj) : Prop :=
  match o with
  | ODecorator _ d =>
      match d !! "_model" with
      | Some (PRef w) => w < r ∧ ∃ o', os !! w = Some o' ∧ is_MLModel o' = true
      | Some (PDict _) => False
      | Some PNone | None => True
      end
  | _ => True
  end.

Definition links_down (os : list obj) : Prop :=
  ∀ r o, os !! r = Some o → link_ok os r o.

(** ** A concrete component

    The scenario of the specification: a model whose input schema is
    [{a : int}], whose output schema is [{b : int}] and whose prediction
    doubles [a]; the same model behind a plain decorator and behind a
    [PredictionIDDecorator]. *)
Module Example.

Definition int_field : descriptor := Descriptor TInt false true VNone [].

Definition input : schema := Schema "DoublerInput" [("a", int_field)].
Definition output : schema := Schema "DoublerOutput" [("b", int_field)].

Definition double (x : instance) : result instance :=
  match assoc "a" (fields x) with
  | Some (VInt z) => Ok (Instance 1 [("b", VInt (2 * z))])
  | _ => Raise (ModelError "a is missing")
  end.

Definition doubler : model :=
  Model "Doubler" "doubler" "Doubles its input." "0.1.0" 0 1 double.

(** A model whose prediction fails on every input. *)
Definition broken : model :=
  Model "Broken" "broken" "Always fails." "0.1.0" 0 1
        (fun _ => Raise (ModelError "model file is corrupt")).



Definition entropy (k : nat) : N :=
  (0x0123456789abcdef0123456789abcdef * N.of_nat (S k))%N.

Definition bound_to (w : pyval) : gmap string pyval :=
  <["_configuration" := PDict []]> (<["_model" := w]> ∅).

Definition start : world := World [OModel doubler] [input; output] 0 entropy.

Definition plain : world :=
  World [OModel doubler; ODecorator KMLModelDecorator (bound_to (PRef 0))]
        [input; output] 0 entropy.

Definition identified : world :=
  World [OModel doubler; ODecorator KPredictionIDDecorator (bound_to (PRef 0))]
        [input; output] 0 entropy.

Definition failing : world :=
  World [OModel broken; ODecorator KPredictionIDDecorator (bound_to (PRef 0))]
        [input; output] 0 entropy.


Definition unbound : world :=
  World [ODecorator KMLModelDecorator (bound_to PNone)] [] 0 entropy.

Definition five : instance := Instance 0 [("a", VInt 5)].
Definition five_with (id : value) : instance :=
  Instance 0 [("a", VInt 5); ("prediction_id", id)].

End Example.

(** ** Whole chains *)

(** The classes of the decorators met on the way from an object down to the
    concrete model at the end of its chain, outermost first, and that
    model's position.  One unit of [fuel] is taken per decorator, as by the
    method calls themselves. *)
Fixpoint chain_classes (fuel : nat) (os : list obj) (r : nat)
  : option (list klass * nat) :=
  match os !! r with
  | Some (OModel _) => Some ([], r)
  | Some (ODecorator k d) =>
      match fuel with
      | O => None
      | S n =>
          match d !! "_model" with
          | Some (PRef w) =>
              match chain_classes n os w with
              | Some (ks, b) => Some (k :: ks, b)
              | None => None
              end
          | _ => None
          end
      end
  | _ => None
  end.

Definition is_plain (k : klass) : bool :=
  match k with
  | KMLModelDecorator => true
  | KPredictionIDDecorator => false
  end.

(** The description seen through decorators of the given classes. *)
Fixpoint chain_description (base : string) (ks : list klass) : string :=
  match ks with
  | [] => base
  | KMLModelDecorator :: ks' => chain_description base ks'
  | KPredictionIDDecorator :: ks' =>
      chain_description base ks' +:+ PredictionIDDecorator.decorator_description
  end.

(** [τ] has the objects of [σ] and possibly newer ones, and is otherwise
    the same. *)
Record more_objects (σ τ : world) : Prop := MoreObjects {
  mo_objs : objs σ `prefix_of` objs τ;
  mo_classes : classes τ = classes σ;
  mo_draws : draws τ = draws σ;
  mo_urandom : urandom τ = urandom σ
}.

(** A value that, if it is a reference, points to an object of the store. *)
Definition allocated (σ : world) (t : pyval) : Prop :=
  match t with
  | PRef r => r < length (objs σ)
  | _ => True
  end.


Definition clash_error : exn :=
  TypeError "got multiple values for keyword argument 'prediction_id'".

(** ** A component whose own input has an integer [prediction_id] *)
Module Numbered.

Definition input : schema :=
  Schema "NumberedInput"
         [("a", Example.int_field); ("prediction_id", Example.int_field)].




End Numbered.

(** ** Deeper chains around the concrete component *)
Module Stacked.

(** The doubler behind two [PredictionIDDecorator]s. *)
Definition twice : world :=
  World [OModel Example.doubler;
         ODecorator KPredictionIDDecorator (Example.bound_to (PRef 0));
         ODecorator KPredictionIDDecorator (Example.bound_to (PRef 1))]
        [Example.input; Example.output] 0 Example.entropy.

(** The doubler behind a [PredictionIDDecorator] behind a plain decorator. *)
Definition layered : world :=
  World [OModel Example.doubler;
         ODecorator KPredictionIDDecorator (Example.bound_to (PRef 0));
         ODecorator KMLModelDecorator (Example.bound_to (PRef 1))]
        [Example.input; Example.output] 0 Example.entropy.

(** The doubler behind two plain decorators. *)
Definition plain_twice : world :=
  World [OModel Example.doubler;
         ODecorator KMLModelDecorator (Example.bound_to (PRef 0));
         ODecorator KMLModelDecorator (Example.bound_to (PRef 1))]
        [Example.input; Example.output] 0 Example.entropy.

End Stacked.

(** * Verification *)

(** ** Running computations *)

Lemma bind_ok {A B} (m : M A) (k : A -> M B) σ a σ1 :
  m σ = (Ok a, σ1) → bind m k σ = k a σ1.
Proof. intros H. unfold bind. now rewrite H. Qed.

Lemma bind_raise {A B} (m : M A) (k : A -> M B) σ e σ1 :
  m σ = (Raise e, σ1) → bind m k σ = (Raise e, σ1).
Proof. intros H. unfold bind. now rewrite H. Qed.

Lemma bind_inv {A B} (m : M A) (k : A -> M B) σ r σ' :
  bind m k σ = (r, σ') →
  (∃ a σ1, m σ = (Ok a, σ1) ∧ k a σ1 = (r, σ')) ∨
  (∃ e, m σ = (Raise e, σ') ∧ r = Raise e).
Proof.
  unfold bind. destruct (m σ) as [[a|e] σ1]; intros H.
  - left. eauto.
  - right. inversion H; subst. eauto.
Qed.

Lemma bind_assoc {A B C} (m : M A) (k : A -> M B) (h : B -> M C) σ :
  bind (bind m k) h σ = bind m (fun a => bind (k a) h) σ.
Proof. unfold bind. destruct (m σ) as [[a|e] σ1]; reflexivity. Qed.

Lemma deref_ok r o σ : objs σ !! r = Some o → deref r σ = (Ok o, σ).
Proof. intros H. unfold deref. now rewrite H. Qed.

Lemma get_class_ok c sch σ :
  classes σ !! c = Some sch → get_class c σ = (Ok sch, σ).
Proof. intros H. unfold get_class. now rewrite H. Qed.

Lemma dict_getitem_ok self k d key v σ :
  objs σ !! self = Some (ODecorator k d) → d !! key = Some v →
  dict_getitem self key σ = (Ok v, σ).
Proof. intros H1 H2. unfold dict_getitem. now rewrite H1, H2. Qed.

Lemma getattr_self_ok self k d key v σ :
  objs σ !! self = Some (ODecorator k d) → d !! key = Some v →
  getattr_self self key σ = (Ok v, σ).
Proof. intros H1 H2. unfold getattr_self. now rewrite H1, H2. Qed.

Lemma insert_last {A} (l : list A) (x y : A) :
  <[length l := y]> (l ++ [x]) = l ++ [y].
Proof. induction l as [|a l IH]; simpl; [reflexivity | now rewrite IH]. Qed.

Lemma lookup_last {A} (l : list A) (x : A) : (l ++ [x]) !! length l = Some x.
Proof. induction l as [|a l IH]; simpl; [reflexivity | exact IH]. Qed.

(** ** The base decorator forwards *)

Section BaseDecorator.
Variables (σ : world) (d : nat) (attrs : gmap string pyval) (w : pyval).
Hypothesis Hd : objs σ !! d = Some (ODecorator KMLModelDecorator attrs).
Hypothesis Hw : attrs !! "_model" = Some w.

Lemma base_predict n x : predict (S n) (PRef d) x σ = predict n w x σ.
Proof.
  simpl. rewrite (bind_ok _ _ _ _ _ (deref_ok _ _ _ Hd)).
  unfold MLModelDecorator.predict.
  now rewrite (bind_ok _ _ _ _ _ (dict_getitem_ok _ _ _ _ _ _ Hd Hw)).
Qed.

Lemma base_getattr_str n a :
  getattr_str (S n) a (PRef d) σ = getattr_str n a w σ.
Proof.
  simpl. rewrite (bind_ok _ _ _ _ _ (deref_ok _ _ _ Hd)).
  destruct a; simpl;
    unfold MLModelDecorator.display_name, MLModelDecorator.qualified_name,
      MLModelDecorator.description, MLModelDecorator.version;
    now rewrite (bind_ok _ _ _ _ _ (dict_getitem_ok _ _ _ _ _ _ Hd Hw)).
Qed.

Lemma base_getattr_schema n a :
  getattr_schema (S n) a (PRef d) σ = getattr_schema n a w σ.
Proof.
  simpl. rewrite (bind_ok _ _ _ _ _ (deref_ok _ _ _ Hd)).
  destruct a; simpl;
    unfold MLModelDecorator.input_schema, MLModelDecorator.output_schema;
    now rewrite (bind_ok _ _ _ _ _ (dict_getitem_ok _ _ _ _ _ _ Hd Hw)).
Qed.
End BaseDecorator.

(** C1.  A plain [MLModelDecorator] is transparent: in whatever state the
    store is when the call or the read happens, [predict] on the decorator is
    [predict] on the wrapped component (same result, same final state), and
    each of the four string properties and the two schema properties read on
    the decorator is the wrapped component's.  The decorator's own method
    takes one unit of the call budget. *)
Theorem base_decorator_transparent σ d attrs w :
  objs σ !! d = Some (ODecorator KMLModelDecorator attrs) →
  attrs !! "_model" = Some w →
  ∀ n,
    (∀ x, predict (S n) (PRef d) x σ = predict n w x σ) ∧
    (∀ a, getattr_str (S n) a (PRef d) σ = getattr_str n a w σ) ∧
    (∀ a, getattr_schema (S n) a (PRef d) σ = getattr_schema n a w σ).
Proof.
  intros Hd Hw n. repeat split; intros.
  - eapply base_predict; eauto.
  - eapply base_getattr_str; eauto.
  - eapply base_getattr_schema; eauto.
Qed.

(** ** Construction *)

Lemma init_fresh k model kw σ :
  (model = PNone ∨ ∃ r o, model = PRef r ∧ objs σ !! r = Some o ∧ is_MLModel o = true) →
  construct k model kw σ =
    (Ok (length (objs σ)),
     World (objs σ ++ [ODecorator k (<["_configuration" := PDict kw]> (<["_model" := model]> ∅))])
           (classes σ) (draws σ) (urandom σ)).
Proof.
  intros Hm. unfold construct.
  set (σ0 := World (objs σ ++ [ODecorator k ∅]) (classes σ) (draws σ) (urandom σ)).
  rewrite (bind_ok _ _ σ (length (objs σ)) σ0) by reflexivity.
  assert (Hself : objs σ0 !! length (objs σ) = Some (ODecorator k ∅))
    by apply lookup_last.
  assert (Hbad : (match model with
                  | PNone => ret false
                  | _ => is_model <- isinstance_MLModel model ;; ret (negb is_model)
                  end) σ0 = (Ok false, σ0)).
  { destruct Hm as [-> | (r & o & -> & Hr & Ho)]; [reflexivity |].
    simpl. unfold bind, deref. simpl.
    rewrite (lookup_app_l_Some _ _ _ _ Hr). unfold ret. now rewrite Ho. }
  unfold MLModelDecorator.__init__.
  rewrite bind_assoc, (bind_ok _ _ _ _ _ Hbad).
  unfold bind, dict_setitem, ret. rewrite Hself. simpl.
  rewrite insert_last, lookup_last, insert_last. reflexivity.
Qed.

Lemma init_rejects k r o kw σ :
  objs σ !! r = Some o → is_MLModel o = false →
  construct k (PRef r) kw σ =
    (Raise wrap_error,
     World (objs σ ++ [ODecorator k ∅]) (classes σ) (draws σ) (urandom σ)).
Proof.
  intros Hr Ho. unfold construct.
  rewrite (bind_ok _ _ σ (length (objs σ))
             (World (objs σ ++ [ODecorator k ∅]) (classes σ) (draws σ) (urandom σ)))
    by reflexivity.
  unfold MLModelDecorator.__init__. simpl.
  unfold bind, deref. simpl.
  rewrite (lookup_app_l_Some _ _ _ _ Hr). unfold ret. rewrite Ho. reflexivity.
Qed.

(** C5.  A supplied [model] that is not an instance of [MLModel] makes the
    constructor raise the [ValueError] of [__init__] (the failure the
    specification calls InvalidWrappedComponent): no instance is returned,
    the object allocated for the call is left with an empty [__dict__]
    (neither [_model] nor [_configuration] was written) and no other object
    is touched.  A [model] that is an instance of [MLModel] makes the
    constructor return a new decorator bound to it. *)
Theorem construct_checks_wrapped k r o kw σ :
  objs σ !! r = Some o →
  (is_MLModel o = false →
     construct k (PRef r) kw σ =
       (Raise wrap_error,
        World (objs σ ++ [ODecorator k ∅]) (classes σ) (draws σ) (urandom σ))) ∧
  (is_MLModel o = true →
     construct k (PRef r) kw σ =
       (Ok (length (objs σ)),
        World (objs σ ++ [ODecorator k (<["_configuration" := PDict kw]>
                                         (<["_model" := PRef r]> ∅))])
              (classes σ) (draws σ) (urandom σ))).
Proof.
  intros Hr. split; intros Ho.
  - now apply (init_rejects k r o).
  - apply init_fresh. right. eauto.
Qed.

(** C6.  Constructing a decorator without a wrapped component succeeds, and
    on the resulting unbound decorator every property read and [predict]
    fail with the [AttributeError] of reading an attribute of [None] (the
    failure the specification calls UnboundDecorator). *)
Theorem unbound_decorator_fails k kw σ :
  ∃ σ',
    construct k PNone kw σ = (Ok (length (objs σ)), σ') ∧
    ∀ n,
      (∀ a, getattr_str (S n) a (PRef (length (objs σ))) σ' =
              (Raise (no_attribute PNone (str_attr_name a)), σ')) ∧
      (∀ a, getattr_schema (S n) a (PRef (length (objs σ))) σ' =
              (Raise (no_attribute PNone (schema_attr_name a)), σ')) ∧
      (∀ x, ∃ σ'', predict (S n) (PRef (length (objs σ))) x σ' =
              (Raise (no_attribute PNone "predict"), σ'')).
Proof.
  eexists. split; [apply init_fresh; now left |].
  set (σ' := World _ _ _ _).
  set (attrs := <["_configuration" := PDict kw]> (<["_model" := PNone]> ∅) : gmap string pyval).
  assert (Hd : objs σ' !! length (objs σ) = Some (ODecorator k attrs))
    by apply lookup_last.
  assert (Hm : attrs !! "_model" = Some PNone).
  { unfold attrs. rewrite lookup_insert_ne by discriminate. apply lookup_insert_eq. }
  intros n. repeat split.
  - intros a. simpl. rewrite (bind_ok _ _ _ _ _ (deref_ok _ _ _ Hd)).
    destruct k, a; simpl;
      unfold MLModelDecorator.display_name, MLModelDecorator.qualified_name,
        MLModelDecorator.description, MLModelDecorator.version,
        PredictionIDDecorator.description;
      first [ rewrite (bind_ok _ _ _ _ _ (dict_getitem_ok _ _ _ _ _ _ Hd Hm))
            | rewrite (bind_ok _ _ _ _ _ (getattr_self_ok _ _ _ _ _ _ Hd Hm)) ];
      destruct n; reflexivity.
  - intros a. simpl. rewrite (bind_ok _ _ _ _ _ (deref_ok _ _ _ Hd)).
    destruct k, a; simpl;
      unfold MLModelDecorator.input_schema, MLModelDecorator.output_schema,
        PredictionIDDecorator.input_schema, PredictionIDDecorator.output_schema;
      first [ rewrite (bind_ok _ _ _ _ _ (dict_getitem_ok _ _ _ _ _ _ Hd Hm))
            | rewrite (bind_ok _ _ _ _ _ (getattr_self_ok _ _ _ _ _ _ Hd Hm)) ];
      destruct n; reflexivity.
  - intros x. simpl. rewrite (bind_ok _ _ _ _ _ (deref_ok _ _ _ Hd)).
    destruct k.
    + unfold MLModelDecorator.predict.
      rewrite (bind_ok _ _ _ _ _ (dict_getitem_ok _ _ _ _ _ _ Hd Hm)).
      eexists. destruct n; reflexivity.
    + unfold PredictionIDDecorator.predict.
      destruct (assoc "prediction_id" (fields x)) as [[| | |]|].
      all: first
        [ rewrite (bind_ok _ _ σ' _ σ') by reflexivity;
          rewrite (bind_ok _ _ _ _ _ (getattr_self_ok _ _ _ _ _ σ' Hd Hm))
        | rewrite (bind_ok _ _ σ' _ (after_draw σ')) by reflexivity;
          rewrite (bind_ok _ _ _ _ _ (getattr_self_ok _ _ _ _ _ (after_draw σ') Hd Hm)) ].
      all: eexists; destruct n; reflexivity.
Qed.

(** ** Ordered mappings *)

Lemma assoc_head {A} k (v : A) l : assoc k ((k, v) :: l) = Some v.
Proof. simpl. now rewrite decide_True. Qed.

Lemma assoc_set_item_eq {A} k (v : A) l : assoc k (set_item k v l) = Some v.
Proof.
  induction l as [|[k' v'] l IH]; simpl.
  - now rewrite decide_True.
  - destruct (decide (k = k')) as [->|Hne]; simpl.
    + now rewrite decide_True.
    + now rewrite decide_False.
Qed.




Lemma assoc_None_keys {A} k (l : list (string * A)) :
  assoc k l = None ↔ k ∉ keys l.
Proof.
  induction l as [|[k' v'] l IH]; simpl.
  - split; [intros _; apply not_elem_of_nil | reflexivity].
  - rewrite not_elem_of_cons. destruct (decide (k = k')) as [->|Hne].
    + split; [discriminate | intros [? _]; congruence].
    + rewrite IH. tauto.
Qed.

(** ** Frame properties of property reads *)

Lemma getattr_str_pure n : ∀ a t σ r σ',
  getattr_str n a t σ = (r, σ') → σ' = σ.
Proof.
  induction n as [|n IH]; intros a t σ r σ' H.
  - destruct t as [|x|kw]; simpl in H; try (inversion H; reflexivity).
    unfold bind, deref in H. destruct (objs σ !! x) as [[m|k d|]|];
      inversion H; reflexivity.
  - destruct t as [|x|kw]; simpl in H; try (inversion H; reflexivity).
    unfold bind at 1, deref in H. destruct (objs σ !! x) as [[m|k d|]|] eqn:Hx;
      try (inversion H; reflexivity).
    assert (Hfwd : ∀ b, (m <- dict_getitem x "_model" ;; getattr_str n b m) σ = (r, σ') → σ' = σ).
    { intros b Hb. unfold bind, dict_getitem in Hb. rewrite Hx in Hb.
      destruct (d !! "_model"); [eauto | inversion Hb; reflexivity]. }
    destruct k, a; simpl in H; try (eapply Hfwd; exact H).
    unfold PredictionIDDecorator.description, bind at 1, getattr_self in H.
    rewrite Hx in H. destruct (d !! "_model"); [| inversion H; reflexivity].
    unfold bind at 1 in H.
    destruct (getattr_str n Description p σ) as [[s|e] σ1] eqn:Hs;
      apply IH in Hs; subst; inversion H; reflexivity.
Qed.

Lemma schema_frame_refl σ : schema_frame σ σ.
Proof. split; reflexivity. Qed.

Lemma schema_frame_trans σ1 σ2 σ3 :
  schema_frame σ1 σ2 → schema_frame σ2 σ3 → schema_frame σ1 σ3.
Proof.
  intros [] []. split; try congruence. etransitivity; eassumption.
Qed.

Lemma schema_frame_with_class σ sch : schema_frame σ (with_class σ sch).
Proof. split; try reflexivity. simpl. now apply prefix_app_r. Qed.

Lemma prefix_lookup {A} (l1 l2 : list A) i x :
  l1 `prefix_of` l2 → l1 !! i = Some x → l2 !! i = Some x.
Proof. intros [k ->] H. now apply lookup_app_l_Some. Qed.

Lemma schema_frame_lookup σ σ' c sch :
  schema_frame σ σ' → classes σ !! c = Some sch → classes σ' !! c = Some sch.
Proof. intros [_ _ _ Hp]. now apply prefix_lookup. Qed.

Lemma create_model_inv name f base σ r σ' :
  create_model name f base σ = (r, σ') →
  (∃ sch, classes σ !! base = Some sch ∧
          r = Ok (length (classes σ)) ∧
          σ' = with_class σ (Schema name (set_item (fst f) (snd f) (sfields sch)))) ∨
  (classes σ !! base = None ∧ σ' = σ ∧ ∃ e, r = Raise e).
Proof.
  unfold create_model, bind, get_class, new_class.
  destruct (classes σ !! base) as [sch|]; intros H; inversion H; subst.
  - left. eauto.
  - right. eauto.
Qed.

Lemma class_name_inv c σ r σ' :
  class_name c σ = (r, σ') →
  σ' = σ ∧ ((∃ sch, classes σ !! c = Some sch ∧ r = Ok (sname sch)) ∨
            (classes σ !! c = None ∧ ∃ e, r = Raise e)).
Proof.
  unfold class_name, bind, get_class, ret.
  destruct (classes σ !! c) as [sch|]; intros H; inversion H; subst; eauto.
Qed.

(** The schema properties of [PredictionIDDecorator], as one equation. *)
Lemma pid_schema_unfold n a d attrs m σ :
  objs σ !! d = Some (ODecorator KPredictionIDDecorator attrs) →
  attrs !! "_model" = Some m →
  getattr_schema (S n) a (PRef d) σ =
    (c0 <- getattr_schema n a m ;;
     name <- class_name c0 ;;
     create_model name (pid_field a) c0) σ.
Proof.
  intros Hd Hm. simpl. rewrite (bind_ok _ _ _ _ _ (deref_ok _ _ _ Hd)).
  destruct a; simpl;
    unfold PredictionIDDecorator.input_schema, PredictionIDDecorator.output_schema;
    now rewrite (bind_ok _ _ _ _ _ (getattr_self_ok _ _ _ _ _ _ Hd Hm)).
Qed.

Lemma derive_run c0 a sch σ :
  classes σ !! c0 = Some sch →
  (name <- class_name c0 ;; create_model name (pid_field a) c0) σ =
    (Ok (length (classes σ)), with_class σ (derived a sch)).
Proof.
  intros Hc. unfold class_name, create_model, new_class.
  rewrite bind_assoc, (bind_ok _ _ _ _ _ (get_class_ok _ _ _ Hc)).
  unfold ret at 1. unfold bind at 1.
  rewrite (bind_ok _ _ _ _ _ (get_class_ok _ _ _ Hc)).
  destruct a; reflexivity.
Qed.

Lemma derive_inv c0 a σ r σ' :
  (name <- class_name c0 ;; create_model name (pid_field a) c0) σ = (r, σ') →
  (∃ sch, classes σ !! c0 = Some sch ∧ r = Ok (length (classes σ)) ∧
          σ' = with_class σ (derived a sch)) ∨
  (classes σ !! c0 = None ∧ σ' = σ ∧ ∃ e, r = Raise e).
Proof.
  destruct (classes σ !! c0) as [sch|] eqn:Hc.
  - rewrite (derive_run _ _ _ _ Hc). intros H; inversion H; subst. left. eauto.
  - unfold class_name, bind, get_class. rewrite Hc.
    intros H; inversion H; subst. right. eauto.
Qed.

Lemma getattr_schema_frame n : ∀ a t σ r σ',
  getattr_schema n a t σ = (r, σ') → schema_frame σ σ'.
Proof.
  induction n as [|n IH]; intros a t σ r σ' H.
  - destruct t as [|x|kw]; simpl in H;
      try (inversion H; apply schema_frame_refl).
    unfold bind, deref in H. destruct (objs σ !! x) as [[m|k d|]|];
      inversion H; apply schema_frame_refl.
  - destruct t as [|x|kw];
      try (simpl in H; inversion H; apply schema_frame_refl).
    destruct (objs σ !! x) as [[m|k d|]|] eqn:Hx;
      try (simpl in H; unfold bind, deref in H; rewrite Hx in H;
           inversion H; apply schema_frame_refl).
    destruct (d !! "_model") as [w|] eqn:Hw.
    + destruct k.
      * rewrite (base_getattr_schema _ _ _ _ Hx Hw) in H. eauto.
      * rewrite (pid_schema_unfold _ _ _ _ _ _ Hx Hw) in H.
        apply bind_inv in H as [(c0 & σ1 & H1 & H2) | (e & H1 & _)]; [| eauto].
        apply IH in H1.
        apply derive_inv in H2 as [(sch & _ & _ & ->) | (_ & -> & _)]; [| exact H1].
        eapply schema_frame_trans; [exact H1 | apply schema_frame_with_class].
    + assert (σ' = σ) as ->; [| apply schema_frame_refl].
      simpl in H. rewrite (bind_ok _ _ _ _ _ (deref_ok _ _ _ Hx)) in H.
      destruct k, a; simpl in H;
        unfold MLModelDecorator.input_schema, MLModelDecorator.output_schema,
          PredictionIDDecorator.input_schema, PredictionIDDecorator.output_schema,
          bind, dict_getitem, getattr_self in H;
        rewrite Hx, Hw in H; inversion H; reflexivity.
Qed.

(** ** Derived schemas *)

Lemma pid_schema_run n a d attrs m σ c0 σ1 sch :
  objs σ !! d = Some (ODecorator KPredictionIDDecorator attrs) →
  attrs !! "_model" = Some m →
  getattr_schema n a m σ = (Ok c0, σ1) →
  classes σ1 !! c0 = Some sch →
  getattr_schema (S n) a (PRef d) σ =
    (Ok (length (classes σ1)), with_class σ1 (derived a sch)).
Proof.
  intros Hd Hm H0 Hc. rewrite (pid_schema_unfold _ _ _ _ _ _ Hd Hm).
  rewrite (bind_ok _ _ _ _ _ H0). now apply derive_run.
Qed.

Lemma pid_schema_inv fuel a d attrs σ c σ' :
  objs σ !! d = Some (ODecorator KPredictionIDDecorator attrs) →
  getattr_schema fuel a (PRef d) σ = (Ok c, σ') →
  ∃ n m c0 σ1 sch,
    fuel = S n ∧ attrs !! "_model" = Some m ∧
    getattr_schema n a m σ = (Ok c0, σ1) ∧
    classes σ1 !! c0 = Some sch ∧
    c = length (classes σ1) ∧ σ' = with_class σ1 (derived a sch).
Proof.
  intros Hd H. destruct fuel as [|n].
  { simpl in H. rewrite (bind_ok _ _ _ _ _ (deref_ok _ _ _ Hd)) in H.
    discriminate. }
  destruct (attrs !! "_model") as [m|] eqn:Hm.
  - rewrite (pid_schema_unfold _ _ _ _ _ _ Hd Hm) in H.
    apply bind_inv in H as [(c0 & σ1 & H1 & H2) | (e & _ & ?)]; [| discriminate].
    apply derive_inv in H2 as [(sch & Hc & Hr & ->) | (_ & _ & e & ?)];
      [| discriminate].
    inversion Hr; subst. exists n, m, c0, σ1, sch. repeat split; auto.
  - simpl in H. rewrite (bind_ok _ _ _ _ _ (deref_ok _ _ _ Hd)) in H.
    destruct a; simpl in H;
      unfold PredictionIDDecorator.input_schema, PredictionIDDecorator.output_schema,
        bind, getattr_self in H;
      rewrite Hd, Hm in H; discriminate.
Qed.


(** ** Reading a schema twice *)

Lemma getattr_schema_stable n : ∀ a t σ τ c σ1,
  objs τ = objs σ → classes σ `prefix_of` classes τ →
  getattr_schema n a t σ = (Ok c, σ1) →
  ∃ c' τ1, getattr_schema n a t τ = (Ok c', τ1) ∧
           ∀ sch, classes σ1 !! c = Some sch → classes τ1 !! c' = Some sch.
Proof.
  induction n as [|n IH]; intros a t σ τ c σ1 Ho Hp H.
  - destruct t as [|x|kw]; simpl in H; try discriminate. simpl.
    unfold bind, deref in *. rewrite Ho.
    destruct (objs σ !! x) as [[m|k d|]|]; try discriminate.
    inversion H; subst. eexists _, _. split; [reflexivity |].
    intros sch. now apply prefix_lookup.
  - destruct t as [|x|kw]; try (simpl in H; discriminate).
    destruct (objs σ !! x) as [[m|k d|]|] eqn:Hx;
      try (simpl in H; unfold bind, deref in H; rewrite Hx in H; discriminate).
    + simpl in *. unfold bind, deref in *. rewrite Ho, Hx. rewrite Hx in H.
      inversion H; subst. eexists _, _. split; [reflexivity |].
      intros sch. now apply prefix_lookup.
    + assert (Hx' : objs τ !! x = Some (ODecorator k d)) by now rewrite Ho.
      destruct k.
      * destruct (d !! "_model") as [w|] eqn:Hw.
        -- rewrite (base_getattr_schema _ _ _ _ Hx Hw) in H.
           rewrite (base_getattr_schema _ _ _ _ Hx' Hw). eauto.
        -- simpl in H. rewrite (bind_ok _ _ _ _ _ (deref_ok _ _ _ Hx)) in H.
           destruct a; simpl in H;
             unfold MLModelDecorator.input_schema, MLModelDecorator.output_schema,
               bind, dict_getitem in H;
             rewrite Hx, Hw in H; discriminate.
      * destruct (pid_schema_inv _ _ _ _ _ _ _ Hx H)
          as (n' & m & c0 & σa & sch & Hn & Hm & H0 & Hc & Hc1 & Hσ1).
        inversion Hn; subst n' c σ1. clear Hn H.
        destruct (IH _ _ _ _ _ _ Ho Hp H0) as (c0' & τa & H0' & Hsame).
        exists (length (classes τa)), (with_class τa (derived a sch)).
        split.
        -- eapply pid_schema_run; eauto.
        -- intros sch'. simpl. rewrite !lookup_last. auto.
Qed.

(** C8.  Reading [input_schema] or [output_schema] of a
    [PredictionIDDecorator] leaves every object and every class that existed
    before the read as it was (the wrapped component's schemas and schemas
    derived earlier included) and does not touch the random source; it only
    creates a class.  A second read succeeds as well and returns another
    class object with the same name and fields. *)
Theorem schema_read_is_pure n a d attrs σ c1 σ1 :
  objs σ !! d = Some (ODecorator KPredictionIDDecorator attrs) →
  getattr_schema n a (PRef d) σ = (Ok c1, σ1) →
  objs σ1 = objs σ ∧ draws σ1 = draws σ ∧
  (∀ c sch, classes σ !! c = Some sch → classes σ1 !! c = Some sch) ∧
  ∃ c2 σ2 sch,
    getattr_schema n a (PRef d) σ1 = (Ok c2, σ2) ∧
    c2 ≠ c1 ∧
    classes σ1 !! c1 = Some sch ∧
    classes σ2 !! c1 = Some sch ∧
    classes σ2 !! c2 = Some sch ∧
    (∀ c sch', classes σ1 !! c = Some sch' → classes σ2 !! c = Some sch').
Proof.
  intros Hd H.
  pose proof (getattr_schema_frame _ _ _ _ _ _ H) as F.
  destruct F as [Fo Fd Fu Fc].
  split; [exact Fo |]. split; [exact Fd |].
  split; [intros c sch; now apply prefix_lookup |].
  destruct (getattr_schema_stable _ _ _ _ σ1 _ _ Fo Fc H) as (c2 & σ2 & H2 & Hsame).
  pose proof (getattr_schema_frame _ _ _ _ _ _ H2) as F2.
  assert (Hd1 : objs σ1 !! d = Some (ODecorator KPredictionIDDecorator attrs))
    by now rewrite Fo.
  destruct (pid_schema_inv _ _ _ _ _ _ _ Hd H)
    as (n' & m & c0 & σa & sch & Hn & Hm & H0 & Hc & Hc1' & Hσ1).
  destruct (pid_schema_inv _ _ _ _ _ _ _ Hd1 H2)
    as (n'' & m' & c0' & τa & sch2 & Hn' & Hm' & H0' & Hc' & Hc2 & Hσ2).
  subst n c1 c2 σ2 σ1. clear H.
  apply getattr_schema_frame in H0'. destruct H0' as [_ _ _ [k Hk]].
  assert (Hc1 : classes (with_class σa (derived a sch)) !! length (classes σa)
                = Some (derived a sch)) by apply lookup_last.
  exists (length (classes τa)), (with_class τa (derived a sch2)), (derived a sch).
  split; [exact H2 |].
  split; [rewrite Hk; simpl; rewrite !length_app; simpl; lia |].
  split; [exact Hc1 |].
  split; [eapply schema_frame_lookup; [exact F2 | exact Hc1] |].
  split; [now apply Hsame |].
  intros c sch'. now apply schema_frame_lookup.
Qed.

(** ** Validation *)

Lemma validate_field_given name d v v' :
  validate_field name d (Some v) = Ok v' → v ≠ VNone →
  type_validator (ftype d) v = Some v'.
Proof.
  unfold validate_field. intros H Hv.
  destruct v; [now destruct Hv | | |];
    (destruct (type_validator (ftype d) _) as [w|]; [| discriminate];
     destruct (forallb _ _); inversion H; reflexivity).
Qed.

Lemma str_validator_str v v' : str_validator v = Some v' → ∃ s, v' = VStr s.
Proof. destruct v; simpl; intros H; inversion H; eauto. Qed.

Lemma validate_model_lookup fs kw out k d :
  validate_model fs kw = Ok out → assoc k fs = Some d →
  ∃ v, validate_field k d (assoc k kw) = Ok v ∧ assoc k out = Some v.
Proof.
  revert out. induction fs as [|[name d'] fs IH]; intros out H Hk; [discriminate |].
  simpl in H, Hk.
  destruct (validate_field name d' (assoc name kw)) as [v|] eqn:Hv; [| discriminate].
  destruct (validate_model fs kw) as [rest|]; [| discriminate].
  inversion H; subst. simpl.
  destruct (decide (k = name)) as [->|Hne].
  - inversion Hk; subst. eauto.
  - eauto.
Qed.




Lemma call_kwargs_inv k v star kwargs :
  call_kwargs [(k, v)] star = Ok kwargs → kwargs = (k, v) :: star.
Proof.
  unfold call_kwargs. destruct (List.find _ _); intros H; inversion H.
  reflexivity.
Qed.


(** ** [PredictionIDDecorator.predict] *)

Lemma chosen_id_run data σ :
  (match assoc "prediction_id" (fields data) with
   | Some VNone | None => u <- uuid4 ;; ret (VStr (UUID_str u))
   | Some v => ret v
   end) σ = (Ok (fst (chosen_id data σ)), snd (chosen_id data σ)).
Proof.
  unfold chosen_id, supplied_id.
  destruct (assoc "prediction_id" (fields data)) as [[| | |]|]; reflexivity.
Qed.

Lemma chosen_id_objs data σ : objs (snd (chosen_id data σ)) = objs σ.
Proof. unfold chosen_id. destruct (supplied_id data); reflexivity. Qed.

Lemma chosen_id_extends data σ : extends σ (snd (chosen_id data σ)).
Proof.
  unfold chosen_id. destruct (supplied_id data); split; simpl; auto with lia.
Qed.

Lemma pid_predict_unfold n d attrs data σ :
  objs σ !! d = Some (ODecorator KPredictionIDDecorator attrs) →
  predict (S n) (PRef d) data σ =
    (m <- getattr_self d "_model" ;;
     prediction <- predict n m data ;;
     wrap_prediction n d (fst (chosen_id data σ)) prediction)
    (snd (chosen_id data σ)).
Proof.
  intros Hd. simpl. rewrite (bind_ok _ _ _ _ _ (deref_ok _ _ _ Hd)).
  unfold PredictionIDDecorator.predict.
  now rewrite (bind_ok _ _ _ _ _ (chosen_id_run data σ)).
Qed.

Lemma pid_predict_bound n d attrs m data σ :
  objs σ !! d = Some (ODecorator KPredictionIDDecorator attrs) →
  attrs !! "_model" = Some m →
  predict (S n) (PRef d) data σ =
    (prediction <- predict n m data ;;
     wrap_prediction n d (fst (chosen_id data σ)) prediction)
    (snd (chosen_id data σ)).
Proof.
  intros Hd Hm. rewrite (pid_predict_unfold _ _ _ _ _ Hd).
  assert (Hd' : objs (snd (chosen_id data σ)) !! d =
                Some (ODecorator KPredictionIDDecorator attrs))
    by now rewrite chosen_id_objs.
  now rewrite (bind_ok _ _ _ _ _ (getattr_self_ok _ _ _ _ _ _ Hd' Hm)).
Qed.

Lemma new_instance_inv c kwargs σ r σ' :
  new_instance c kwargs σ = (r, σ') →
  σ' = σ ∧
  ∀ out, r = Ok out →
    ∃ sch fs, classes σ !! c = Some sch ∧
              validate_model (sfields sch) kwargs = Ok fs ∧ out = Instance c fs.
Proof.
  unfold new_instance, bind, get_class, lift, ret.
  destruct (classes σ !! c) as [sch|]; [| intros H; inversion H; split; [reflexivity | discriminate]].
  destruct (validate_model (sfields sch) kwargs) as [fs|e] eqn:Hv;
    intros H; inversion H; subst; (split; [reflexivity |]).
  - intros out Ho. inversion Ho; subst. exists sch, fs. auto.
  - discriminate.
Qed.


Lemma wrap_prediction_inv n d pid p σ r σ' :
  wrap_prediction n d pid p σ = (r, σ') →
  schema_frame σ σ' ∧
  ∀ out, r = Ok out →
    ∃ c sch fs,
      getattr_schema n OutputSchema (PRef d) σ = (Ok c, σ') ∧
      classes σ' !! c = Some sch ∧
      validate_model (sfields sch) (("prediction_id", pid) :: fields p) = Ok fs ∧
      out = Instance c fs.
Proof.
  unfold wrap_prediction. intros H.
  apply bind_inv in H as [(c & σ1 & H1 & H2) | (e & H1 & ->)].
  - pose proof (getattr_schema_frame _ _ _ _ _ _ H1) as F.
    apply bind_inv in H2 as [(kwargs & σ2 & H2 & H3) | (e & H2 & ->)].
    + unfold lift in H2. inversion H2; subst σ2. clear H2.
      apply call_kwargs_inv in H0. subst kwargs.
      apply new_instance_inv in H3 as [-> Hout]. split; [exact F |].
      intros out Ho. destruct (Hout out Ho) as (sch & fs & ? & ? & ?).
      exists c, sch, fs. auto.
    + unfold lift in H2. inversion H2; subst. split; [exact F | discriminate].
  - split; [eapply getattr_schema_frame; eauto | discriminate].
Qed.

Lemma schema_frame_extends σ σ' : schema_frame σ σ' → extends σ σ'.
Proof. intros [? Hd ? ?]. split; auto. now rewrite Hd. Qed.

Lemma extends_refl σ : extends σ σ.
Proof. split; reflexivity. Qed.

Lemma extends_trans σ1 σ2 σ3 : extends σ1 σ2 → extends σ2 σ3 → extends σ1 σ3.
Proof.
  intros [] []. split; try congruence; etransitivity; eassumption.
Qed.

(** Predicting never touches an object or an existing class; the random
    source only advances. *)
Lemma predict_extends n : ∀ t data σ r σ',
  predict n t data σ = (r, σ') → extends σ σ'.
Proof.
  induction n as [|n IH]; intros t data σ r σ' H.
  - destruct t as [|x|kw]; simpl in H; try (inversion H; apply extends_refl).
    unfold bind, deref, lift in H. destruct (objs σ !! x) as [[m|k d|]|];
      inversion H; apply extends_refl.
  - destruct t as [|x|kw]; try (simpl in H; inversion H; apply extends_refl).
    destruct (objs σ !! x) as [[m|k d|]|] eqn:Hx;
      try (simpl in H; unfold bind, deref, lift in H; rewrite Hx in H;
           inversion H; apply extends_refl).
    destruct k.
    + destruct (d !! "_model") as [w|] eqn:Hw.
      * rewrite (base_predict _ _ _ _ Hx Hw) in H. eauto.
      * simpl in H. rewrite (bind_ok _ _ _ _ _ (deref_ok _ _ _ Hx)) in H.
        unfold MLModelDecorator.predict, bind, dict_getitem in H.
        rewrite Hx, Hw in H. inversion H. apply extends_refl.
    + rewrite (pid_predict_unfold _ _ _ _ _ Hx) in H.
      eapply extends_trans; [apply chosen_id_extends |].
      apply bind_inv in H as [(m & σ0 & H0 & H) | (e & H0 & _)].
      * assert (σ0 = snd (chosen_id data σ)) as ->.
        { unfold getattr_self in H0. repeat case_match; now inversion H0. }
        apply bind_inv in H as [(p & σ1 & H1 & H2) | (e & H1 & _)]; [| eauto].
        eapply extends_trans; [eauto |].
        apply schema_frame_extends. eapply wrap_prediction_inv; eauto.
      * assert (σ' = snd (chosen_id data σ)) as ->; [| apply extends_refl].
        unfold getattr_self in H0. repeat case_match; now inversion H0.
Qed.

(** When the caller supplies an identifier, no call in the chain reads the
    random source. *)
Lemma predict_supplied_no_draw n : ∀ t data v σ r σ',
  supplied_id data = Some v →
  predict n t data σ = (r, σ') → draws σ' = draws σ.
Proof.
  induction n as [|n IH]; intros t data v σ r σ' Hv H.
  - destruct t as [|x|kw]; simpl in H; try (inversion H; reflexivity).
    unfold bind, deref, lift in H. destruct (objs σ !! x) as [[m|k d|]|];
      inversion H; reflexivity.
  - destruct t as [|x|kw]; try (simpl in H; inversion H; reflexivity).
    destruct (objs σ !! x) as [[m|k d|]|] eqn:Hx;
      try (simpl in H; unfold bind, deref, lift in H; rewrite Hx in H;
           inversion H; reflexivity).
    destruct k.
    + destruct (d !! "_model") as [w|] eqn:Hw.
      * rewrite (base_predict _ _ _ _ Hx Hw) in H. eauto.
      * simpl in H. rewrite (bind_ok _ _ _ _ _ (deref_ok _ _ _ Hx)) in H.
        unfold MLModelDecorator.predict, bind, dict_getitem in H.
        rewrite Hx, Hw in H. inversion H. reflexivity.
    + rewrite (pid_predict_unfold _ _ _ _ _ Hx) in H.
      unfold chosen_id in H. rewrite Hv in H. simpl in H.
      apply bind_inv in H as [(m & σ0 & H0 & H) | (e & H0 & _)].
      * assert (σ0 = σ) as ->.
        { unfold getattr_self in H0. repeat case_match; now inversion H0. }
        apply bind_inv in H as [(p & σ1 & H1 & H2) | (e & H1 & _)]; [| eauto].
        apply (IH _ _ _ _ _ _ Hv) in H1.
        apply wrap_prediction_inv in H2 as [[_ Hdr _ _] _]. congruence.
      * unfold getattr_self in H0. repeat case_match; now inversion H0.
Qed.

(** ** UUIDs *)

















(** ** Identifiers of predictions *)



(** Whatever [PredictionIDDecorator.predict] returns carries the identifier
    that was settled on before the wrapped call, as the string that the
    output schema's validation makes of it. *)
Lemma pid_predict_inv fuel d attrs data σ out σ' :
  objs σ !! d = Some (ODecorator KPredictionIDDecorator attrs) →
  predict fuel (PRef d) data σ = (Ok out, σ') →
  ∃ s, str_validator (fst (chosen_id data σ)) = Some (VStr s) ∧
       assoc "prediction_id" (fields out) = Some (VStr s).
Proof.
  intros Hd H. destruct fuel as [|n].
  { simpl in H. rewrite (bind_ok _ _ _ _ _ (deref_ok _ _ _ Hd)) in H.
    discriminate. }
  rewrite (pid_predict_unfold _ _ _ _ _ Hd) in H.
  set (pid := fst (chosen_id data σ)) in *.
  apply bind_inv in H as [(m & σ0 & H0 & H) | (e & _ & ?)]; [| discriminate].
  assert (σ0 = snd (chosen_id data σ)) as ->.
  { unfold getattr_self in H0. repeat case_match; now inversion H0. }
  apply bind_inv in H as [(p & σ1 & H1 & H2) | (e & _ & ?)]; [| discriminate].
  apply predict_extends in H1 as [Ho _ _ _].
  rewrite chosen_id_objs in Ho.
  apply wrap_prediction_inv in H2 as [_ H2].
  destruct (H2 out eq_refl) as (c & sch & fs & Hc & Hs & Hv & ->).
  assert (Hd1 : objs σ1 !! d = Some (ODecorator KPredictionIDDecorator attrs))
    by now rewrite Ho.
  destruct (pid_schema_inv _ _ _ _ _ _ _ Hd1 Hc)
    as (n' & w & c0 & σa & sch0 & _ & _ & _ & _ & -> & ->).
  simpl in Hs. rewrite lookup_last in Hs. inversion Hs; subst sch.
  destruct (validate_model_lookup _ _ _ "prediction_id"
              (snd (pid_field OutputSchema)) Hv) as (v' & Hf & Ha).
  { apply assoc_set_item_eq. }
  rewrite assoc_head in Hf.
  assert (Hn : pid ≠ VNone) by (intros Hp; rewrite Hp in Hf; discriminate).
  pose proof (validate_field_given _ _ _ _ Hf Hn) as Hsv. simpl in Hsv.
  destruct (str_validator_str _ _ Hsv) as [s ->].
  exists s. auto.
Qed.

Lemma call_kwargs_clash k v (star : list (string * value)) :
  is_Some (assoc k star) →
  call_kwargs [(k, v)] star =
    Raise (TypeError ("got multiple values for keyword argument '" +:+ k +:+ "'")).
Proof.
  intros Hs. unfold call_kwargs. simpl.
  rewrite bool_decide_eq_true_2; [reflexivity |].
  destruct (decide (k ∈ keys star)) as [Hin | Hout]; [exact Hin |].
  apply assoc_None_keys in Hout. rewrite Hout in Hs. now destruct Hs.
Qed.

Lemma wrap_prediction_clash n d pid p σ c σ' :
  is_Some (assoc "prediction_id" (fields p)) →
  getattr_schema n OutputSchema (PRef d) σ = (Ok c, σ') →
  wrap_prediction n d pid p σ = (Raise clash_error, σ').
Proof.
  intros Hs Hc. unfold wrap_prediction. rewrite (bind_ok _ _ _ _ _ Hc).
  unfold dict. now rewrite (call_kwargs_clash _ _ _ Hs).
Qed.

Lemma wrap_prediction_ok_fresh n d pid p σ out σ' :
  wrap_prediction n d pid p σ = (Ok out, σ') →
  assoc "prediction_id" (fields p) = None.
Proof.
  intros H. destruct (assoc "prediction_id" (fields p)) as [v|] eqn:Ha;
    [| reflexivity].
  unfold wrap_prediction in H.
  apply bind_inv in H as [(c & σ1 & H1 & H2) | (e & _ & ?)]; [| discriminate].
  unfold dict in H2. rewrite call_kwargs_clash in H2 by (rewrite Ha; eauto).
  discriminate.
Qed.


(** C4 (as amended).  When the wrapped component's [predict] raises, the
    decorator's [predict] raises the same exception and ends in the state in
    which the wrapped call ended: nothing is returned and so no identifier
    is reported.  The identifier is settled before the wrapped call: with an
    input that supplies none the random source has been read by then, with
    one that supplies it the random source is not read at all. *)
Theorem wrapped_failure_propagates n d attrs m data σ e σ1 :
  objs σ !! d = Some (ODecorator KPredictionIDDecorator attrs) →
  attrs !! "_model" = Some m →
  predict n m data (snd (chosen_id data σ)) = (Raise e, σ1) →
  predict (S n) (PRef d) data σ = (Raise e, σ1) ∧
  (supplied_id data = None →
     snd (chosen_id data σ) = after_draw σ ∧ draws σ < draws σ1) ∧
  (∀ v, supplied_id data = Some v →
     snd (chosen_id data σ) = σ ∧ draws σ1 = draws σ).
Proof.
  intros Hd Hm H. split; [| split].
  - rewrite (pid_predict_bound _ _ _ _ _ _ Hd Hm).
    now rewrite (bind_raise _ _ _ _ _ H).
  - intros Hn. apply predict_extends in H as [_ _ Hdr _].
    unfold chosen_id in *. rewrite Hn in *. simpl in *. split; [reflexivity | lia].
  - intros v Hs. unfold chosen_id in *. rewrite Hs in *. simpl in *.
    split; [reflexivity |]. eapply predict_supplied_no_draw; eauto.
Qed.








(** ** Chains of decorators *)

Lemma link_ok_app os x r o : link_ok os r o → link_ok (os ++ [x]) r o.
Proof.
  unfold link_ok. destruct o as [|k a|]; trivial.
  destruct (a !! "_model") as [[|w|]|]; trivial.
  intros [Hlt (o' & Hw & Ho')]. split; [exact Hlt |].
  exists o'. split; [now apply lookup_app_l_Some | exact Ho'].
Qed.

Lemma links_down_snoc os k a :
  links_down os →
  link_ok os (length os) (ODecorator k a) →
  links_down (os ++ [ODecorator k a]).
Proof.
  intros Hos Hnew r o Hr.
  destruct (decide (r < length os)) as [Hlt | Hge].
  - rewrite lookup_app_l in Hr by exact Hlt. apply link_ok_app. now apply Hos.
  - assert (r = length os) as ->.
    { apply lookup_lt_Some in Hr. rewrite length_app in Hr. simpl in Hr. lia. }
    rewrite lookup_last in Hr. inversion Hr; subst. now apply link_ok_app.
Qed.

Lemma construct_cases k model kw σ r σ' :
  (∀ w, model = PRef w → w < length (objs σ)) →
  construct k model kw σ = (r, σ') →
  ∃ a, objs σ' = objs σ ++ [ODecorator k a] ∧
       link_ok (objs σ) (length (objs σ)) (ODecorator k a).
Proof.
  intros Hold H.
  destruct model as [|w|kw'].
  - rewrite init_fresh in H by now left. inversion H; subst. simpl.
    eexists. split; [reflexivity |]. simpl.
    rewrite lookup_insert_ne by discriminate. now rewrite lookup_insert_eq.
  - pose proof (Hold w eq_refl) as Hlt.
    destruct (lookup_lt_is_Some_2 _ _ Hlt) as [o Hw].
    destruct (is_MLModel o) eqn:Ho.
    + rewrite init_fresh in H by (right; eauto). inversion H; subst. simpl.
      eexists. split; [reflexivity |]. simpl.
      rewrite lookup_insert_ne by discriminate. rewrite lookup_insert_eq.
      split; [exact Hlt | eauto].
    + rewrite (init_rejects _ _ _ _ _ Hw Ho) in H. inversion H; subst. simpl.
      eexists. split; [reflexivity |]. simpl. now rewrite lookup_empty.
  - unfold construct in H.
    rewrite (bind_ok _ _ σ (length (objs σ))
               (World (objs σ ++ [ODecorator k ∅]) (classes σ) (draws σ) (urandom σ)))
      in H by reflexivity.
    inversion H; subst. simpl. eexists. split; [reflexivity |].
    simpl. now rewrite lookup_empty.
Qed.

Lemma follow_chain_ends os :
  links_down os →
  ∀ fuel r o, os !! r = Some o → is_MLModel o = true → r ≤ fuel →
    ∃ e, follow_chain fuel os r = Some e.
Proof.
  intros Hos. induction fuel as [|fuel IH]; intros r o Hr Ho Hle.
  - pose proof (Hos r o Hr) as Hl.
    destruct o as [mo|k a|]; [| | discriminate]; simpl; rewrite Hr; [eauto |].
    simpl in Hl. destruct (a !! "_model") as [[|w|]|]; eauto; [lia | tauto].
  - pose proof (Hos r o Hr) as Hl.
    destruct o as [mo|k a|]; [| | discriminate]; simpl; rewrite Hr; [eauto |].
    simpl in Hl. destruct (a !! "_model") as [[|w|]|]; eauto; [| tauto].
    destruct Hl as [Hlt (o' & Hw & Ho')]. apply (IH w o'); auto with lia.
Qed.

(** C7 (as amended).  [__init__] checks the type of the wrapped object and
    nothing else.  What keeps chains acyclic is that the constructor wraps
    an object that existed before the new instance: in a store where every
    wrapped reference points to an older instance of [MLModel], constructing
    a decorator around [None] or around any object of the store keeps it so,
    and there the chain of wrapped references that starts at any component
    ends, after at most as many links as the component's position, at a
    concrete model or at a decorator that has no wrapped component. *)
Theorem construct_keeps_chains_acyclic k model kw σ r σ' :
  links_down (objs σ) →
  (∀ w, model = PRef w → w < length (objs σ)) →
  construct k model kw σ = (r, σ') →
  links_down (objs σ') ∧
  ∀ d o, objs σ' !! d = Some o → is_MLModel o = true →
    ∃ e, follow_chain d (objs σ') d = Some e.
Proof.
  intros Hos Hold H.
  destruct (construct_cases _ _ _ _ _ _ Hold H) as (a & -> & Hnew).
  assert (Hdown : links_down (objs σ ++ [ODecorator k a]))
    by now apply links_down_snoc.
  split; [exact Hdown |].
  intros d o Hd Ho. now apply (follow_chain_ends _ Hdown d d o).
Qed.

(** ** The concrete component *)

Example plain_is_constructed :
  construct KMLModelDecorator (PRef 0) [] Example.start = (Ok 1, Example.plain).
Proof. apply init_fresh. right. exists 0, (OModel Example.doubler). auto. Qed.

Example identified_is_constructed :
  construct KPredictionIDDecorator (PRef 0) [] Example.start =
    (Ok 1, Example.identified).
Proof. apply init_fresh. right. exists 0, (OModel Example.doubler). auto. Qed.

Example unbound_is_constructed :
  construct KMLModelDecorator PNone [] (World [] [] 0 Example.entropy) =
    (Ok 0, Example.unbound).
Proof. apply init_fresh. now left. Qed.

Example scenario_generated :
  fst (predict 2 (PRef 1) Example.five Example.identified) =
    Ok (Instance 2 [("b", VInt 10);
                    ("prediction_id", VStr "01234567-89ab-4def-8123-456789abcdef")]).
Proof. vm_compute. reflexivity. Qed.

Example scenario_supplied :
  fst (predict 2 (PRef 1) (Example.five_with (VStr "X")) Example.identified) =
    Ok (Instance 2 [("b", VInt 10); ("prediction_id", VStr "X")]).
Proof. vm_compute. reflexivity. Qed.

Example stacked_decorators_clash :
  let '(_, σ) := construct KPredictionIDDecorator (PRef 1) [] Example.identified in
  fst (predict 3 (PRef 2) Example.five σ) =
    Raise (TypeError "got multiple values for keyword argument 'prediction_id'").
Proof. vm_compute. reflexivity. Qed.

(** ** Witnesses and counterexamples *)

Lemma base_decorator_transparent_witness :
  fst (predict 2 (PRef 1) Example.five Example.plain) =
    Ok (Instance 1 [("b", VInt 10)]) ∧
  fst (getattr_str 2 QualifiedName (PRef 1) Example.plain) = Ok "doubler" ∧
  fst (getattr_schema 2 OutputSchema (PRef 1) Example.plain) = Ok 1.
Proof.
  destruct (base_decorator_transparent Example.plain 1
              (Example.bound_to (PRef 0)) (PRef 0) eq_refl eq_refl 1)
    as (Hp & Hs & Hc).
  rewrite Hp, Hs, Hc. repeat split.
Defined.





(** C4, counterexample.  The wrapped model fails on an input that carries no
    identifier: the failure reaches the caller, but by then the random source
    has been read once, that is, an identifier has been generated. *)
Lemma identifier_generated_before_failure :
  ∃ σ',
    predict 1 (PRef 1) Example.five Example.failing =
      (Raise (ModelError "model file is corrupt"), σ') ∧
    draws Example.failing = 0 ∧ draws σ' = 1.
Proof. eexists. repeat split. Qed.

Lemma wrapped_failure_propagates_witness :
  predict 1 (PRef 1) Example.five Example.failing =
    (Raise (ModelError "model file is corrupt"), after_draw Example.failing).
Proof.
  exact (proj1 (wrapped_failure_propagates 0 1 (Example.bound_to (PRef 0))
                  (PRef 0) Example.five Example.failing
                  (ModelError "model file is corrupt")
                  (after_draw Example.failing) eq_refl eq_refl eq_refl)).
Defined.

Lemma construct_checks_wrapped_witness :
  fst (construct KPredictionIDDecorator (PRef 0) []
         (World [OOther] [] 0 Example.entropy)) = Raise wrap_error ∧
  fst (construct KPredictionIDDecorator (PRef 0) [] Example.start) = Ok 1.
Proof.
  split.
  - rewrite (proj1 (construct_checks_wrapped KPredictionIDDecorator 0 OOther []
                      (World [OOther] [] 0 Example.entropy) eq_refl) eq_refl).
    reflexivity.
  - rewrite (proj2 (construct_checks_wrapped KPredictionIDDecorator 0
                      (OModel Example.doubler) [] Example.start eq_refl) eq_refl).
    reflexivity.
Defined.

(** C7, counterexample.  [__init__] run on an existing decorator with that
    decorator as [model] succeeds; afterwards the chain of wrapped references
    from the decorator never ends and [predict] exhausts every call budget.
    Besides, the chain of a decorator constructed without a wrapped component
    ends at that decorator, not at a concrete model. *)
Lemma self_wrapping_is_accepted :
  ∃ σ',
    MLModelDecorator.__init__ 0 (PRef 0) [] Example.unbound = (Ok tt, σ') ∧
    (∀ fuel, follow_chain fuel (objs σ') 0 = None) ∧
    (∀ fuel, fst (predict fuel (PRef 0) Example.five σ') = Raise RecursionError) ∧
    follow_chain 0 (objs Example.unbound) 0 = Some (AtUnbound 0).
Proof.
  eexists. split; [vm_compute; reflexivity |].
  match goal with |- (∀ fuel, follow_chain fuel (objs ?w) 0 = None) ∧ _ =>
    set (σ' := w) end.
  assert (Hd : objs σ' !! 0 =
               Some (ODecorator KMLModelDecorator (Example.bound_to (PRef 0))))
    by (vm_compute; reflexivity).
  split; [| split; [| reflexivity]].
  - intros fuel. induction fuel as [|fuel IH]; [reflexivity |].
    simpl. exact IH.
  - intros fuel. induction fuel as [|fuel IH]; [reflexivity |].
    rewrite (base_predict _ _ _ _ Hd eq_refl). exact IH.
Qed.

Lemma construct_keeps_chains_acyclic_witness :
  links_down (objs Example.plain) ∧
  ∃ e, follow_chain 1 (objs Example.plain) 1 = Some e.
Proof.
  assert (Hdown : links_down (objs Example.start)).
  { intros r o Hr. destruct r as [|r]; [| discriminate].
    inversion Hr; subst. exact I. }
  assert (Hold : ∀ w, PRef 0 = PRef w → w < length (objs Example.start)).
  { intros w Hw. inversion Hw; subst. simpl. lia. }
  destruct (construct_keeps_chains_acyclic KMLModelDecorator (PRef 0) []
              Example.start (Ok 1) Example.plain Hdown Hold
              plain_is_constructed) as [Hlinks Hends].
  split; [exact Hlinks | exact (Hends 1 _ eq_refl eq_refl)].
Defined.

Lemma schema_read_is_pure_witness :
  ∃ c1 σ1 c2 σ2 sch,
    getattr_schema 1 OutputSchema (PRef 1) Example.identified = (Ok c1, σ1) ∧
    getattr_schema 1 OutputSchema (PRef 1) σ1 = (Ok c2, σ2) ∧
    c2 ≠ c1 ∧
    classes σ2 !! c1 = Some sch ∧ classes σ2 !! c2 = Some sch ∧
    classes σ1 !! 1 = Some Example.output.
Proof.
  assert (Hrun : getattr_schema 1 OutputSchema (PRef 1) Example.identified =
                 (Ok 2, with_class Example.identified
                          (derived OutputSchema Example.output)))
    by reflexivity.
  destruct (schema_read_is_pure 1 OutputSchema 1 (Example.bound_to (PRef 0))
              Example.identified _ _ eq_refl Hrun)
    as (_ & _ & Hkept & c2 & σ2 & sch & H2 & Hne & _ & Hc1 & Hc2 & _).
  exists 2, (with_class Example.identified (derived OutputSchema Example.output)),
    c2, σ2, sch.
  repeat split; auto.
Defined.




(** * Further properties *)

(** ** Properties seen through a whole chain *)

Lemma chain_getattr_str fuel : ∀ a r ks b m σ,
  chain_classes fuel (objs σ) r = Some (ks, b) →
  objs σ !! b = Some (OModel m) →
  getattr_str fuel a (PRef r) σ =
    (Ok (match a with
         | Description => chain_description (m_description m) ks
         | _ => model_str a m
         end), σ).
Proof.
  induction fuel as [|fuel IH]; intros a r ks b m σ Hc Hb.
  - simpl in Hc. destruct (objs σ !! r) as [[m'|k d|]|] eqn:Hr; try discriminate.
    inversion Hc; subst. rewrite Hb in Hr. inversion Hr; subst m'.
    simpl. rewrite (bind_ok _ _ _ _ _ (deref_ok _ _ _ Hb)). now destruct a.
  - simpl in Hc. destruct (objs σ !! r) as [[m'|k d|]|] eqn:Hr; try discriminate.
    + inversion Hc; subst. rewrite Hb in Hr. inversion Hr; subst m'.
      simpl. rewrite (bind_ok _ _ _ _ _ (deref_ok _ _ _ Hb)). now destruct a.
    + destruct (d !! "_model") as [[|w|]|] eqn:Hw; try discriminate.
      destruct (chain_classes fuel (objs σ) w) as [[ks' b']|] eqn:Hc';
        [| discriminate].
      inversion Hc; subst ks b. clear Hc.
      simpl. rewrite (bind_ok _ _ _ _ _ (deref_ok _ _ _ Hr)).
      pose proof (dict_getitem_ok _ _ _ _ _ _ Hr Hw) as Hget.
      pose proof (getattr_self_ok _ _ _ _ _ _ Hr Hw) as Hget'.
      destruct k, a; simpl;
        unfold MLModelDecorator.display_name, MLModelDecorator.qualified_name,
          MLModelDecorator.description, MLModelDecorator.version,
          PredictionIDDecorator.description;
        first [ rewrite (bind_ok _ _ _ _ _ Hget) | rewrite (bind_ok _ _ _ _ _ Hget') ];
        try (rewrite (IH _ _ _ _ _ _ Hc' Hb); reflexivity).
      rewrite (bind_ok _ _ _ _ _ (IH Description _ _ _ _ _ Hc' Hb)). reflexivity.
Qed.

(** X1.  However many decorators of either class are stacked on a model,
    the display name, the qualified name and the version read at the top of
    the chain are the model's, and the read changes nothing. *)
Theorem identity_is_stable_through_chain fuel r ks b m σ a :
  chain_classes fuel (objs σ) r = Some (ks, b) →
  objs σ !! b = Some (OModel m) →
  a ≠ Description →
  getattr_str fuel a (PRef r) σ = (Ok (model_str a m), σ).
Proof.
  intros Hc Hb Ha. rewrite (chain_getattr_str _ _ _ _ _ _ _ Hc Hb).
  destruct a; try reflexivity. now destruct Ha.
Qed.

(** X2.  The description read at the top of a chain is the model's
    description followed by the decorator's explanatory clause once for each
    [PredictionIDDecorator] in the chain; plain decorators add nothing. *)
Theorem description_accumulates_clauses fuel r ks b m σ :
  chain_classes fuel (objs σ) r = Some (ks, b) →
  objs σ !! b = Some (OModel m) →
  getattr_str fuel Description (PRef r) σ =
    (Ok (chain_description (m_description m) ks), σ) ∧
  (forallb is_plain ks = true →
     chain_description (m_description m) ks = m_description m) ∧
  (∀ ks', ks = KPredictionIDDecorator :: ks' →
     chain_description (m_description m) ks =
       chain_description (m_description m) ks' +:+
       PredictionIDDecorator.decorator_description).
Proof.
  intros Hc Hb. split; [exact (chain_getattr_str _ Description _ _ _ _ _ Hc Hb) |].
  split.
  - clear Hc. induction ks as [|[|] ks IH]; simpl; auto. discriminate.
  - intros ks' ->. reflexivity.
Qed.

Lemma chain_plain fuel : ∀ r ks b m σ,
  chain_classes fuel (objs σ) r = Some (ks, b) →
  objs σ !! b = Some (OModel m) →
  forallb is_plain ks = true →
  (∀ x, predict fuel (PRef r) x σ = (m_predict m x, σ)) ∧
  (∀ a, getattr_schema fuel a (PRef r) σ = (Ok (model_schema a m), σ)).
Proof.
  induction fuel as [|fuel IH]; intros r ks b m σ Hc Hb Hp.
  - simpl in Hc. destruct (objs σ !! r) as [[m'|k d|]|] eqn:Hr; try discriminate.
    inversion Hc; subst. rewrite Hb in Hr. inversion Hr; subst m'.
    split; intros; simpl; now rewrite (bind_ok _ _ _ _ _ (deref_ok _ _ _ Hb)).
  - simpl in Hc. destruct (objs σ !! r) as [[m'|k d|]|] eqn:Hr; try discriminate.
    + inversion Hc; subst. rewrite Hb in Hr. inversion Hr; subst m'.
      split; intros; simpl; now rewrite (bind_ok _ _ _ _ _ (deref_ok _ _ _ Hb)).
    + destruct (d !! "_model") as [[|w|]|] eqn:Hw; try discriminate.
      destruct (chain_classes fuel (objs σ) w) as [[ks' b']|] eqn:Hc';
        [| discriminate].
      inversion Hc; subst ks b. clear Hc.
      simpl in Hp. apply andb_true_iff in Hp as [Hk Hp].
      destruct k; [| discriminate].
      destruct (IH _ _ _ _ _ Hc' Hb Hp) as [IHp IHs].
      split; intros.
      * rewrite (base_predict _ _ _ _ Hr Hw). apply IHp.
      * rewrite (base_getattr_schema _ _ _ _ Hr Hw). apply IHs.
Qed.

(** X5.  A model behind any number of plain [MLModelDecorator]s behaves as
    the model alone: [predict] at the top returns what the model's prediction
    function returns (a value or the exception it raises), both schema
    properties are the model's own classes, and nothing in the state
    changes. *)
Theorem plain_chain_is_transparent fuel r ks b m σ :
  chain_classes fuel (objs σ) r = Some (ks, b) →
  objs σ !! b = Some (OModel m) →
  forallb is_plain ks = true →
  (∀ x, predict fuel (PRef r) x σ = (m_predict m x, σ)) ∧
  (∀ a, getattr_schema fuel a (PRef r) σ = (Ok (model_schema a m), σ)) ∧
  (∀ a, getattr_str fuel a (PRef r) σ = (Ok (model_str a m), σ)).
Proof.
  intros Hc Hb Hp. destruct (chain_plain _ _ _ _ _ _ Hc Hb Hp) as [H1 H2].
  split; [exact H1 |]. split; [exact H2 |].
  intros a. rewrite (chain_getattr_str _ _ _ _ _ _ _ Hc Hb).
  destruct a; try reflexivity.
  clear -Hp. induction ks as [|[|] ks IH]; simpl in *; auto. discriminate.
Qed.

(** ** Stacking [PredictionIDDecorator] *)

(** X6.  When the wrapped component returns a prediction that already has
    a [prediction_id] attribute, [PredictionIDDecorator.predict] does not
    return: once [self.output_schema] has been read, passing [prediction_id]
    both by name and through the unpacked prediction raises [TypeError]. *)
Theorem wrapped_prediction_id_clashes n d attrs m data σ p σ1 c σ2 :
  objs σ !! d = Some (ODecorator KPredictionIDDecorator attrs) →
  attrs !! "_model" = Some m →
  predict n m data (snd (chosen_id data σ)) = (Ok p, σ1) →
  is_Some (assoc "prediction_id" (fields p)) →
  getattr_schema n OutputSchema (PRef d) σ1 = (Ok c, σ2) →
  predict (S n) (PRef d) data σ = (Raise clash_error, σ2).
Proof.
  intros Hd Hm H1 Hs Hc.
  rewrite (pid_predict_bound _ _ _ _ _ _ Hd Hm), (bind_ok _ _ _ _ _ H1).
  eapply wrap_prediction_clash; eassumption.
Qed.

(** X7.  A [PredictionIDDecorator] that wraps another
    [PredictionIDDecorator] never returns a prediction: whatever the input,
    the state and the call budget, [predict] ends in an exception. *)
Theorem doubly_decorated_never_returns fuel d2 attrs2 d1 attrs1 data σ r σ' :
  objs σ !! d2 = Some (ODecorator KPredictionIDDecorator attrs2) →
  attrs2 !! "_model" = Some (PRef d1) →
  objs σ !! d1 = Some (ODecorator KPredictionIDDecorator attrs1) →
  predict fuel (PRef d2) data σ = (r, σ') →
  ∃ e, r = Raise e.
Proof.
  intros Hd2 Hm Hd1 H. destruct r as [out|e]; [exfalso | eauto].
  destruct fuel as [|n].
  { simpl in H. rewrite (bind_ok _ _ _ _ _ (deref_ok _ _ _ Hd2)) in H.
    discriminate. }
  rewrite (pid_predict_bound _ _ _ _ _ _ Hd2 Hm) in H.
  apply bind_inv in H as [(p & σ1 & H1 & H2) | (e & _ & ?)]; [| discriminate].
  assert (Hd1' : objs (snd (chosen_id data σ)) !! d1 =
                 Some (ODecorator KPredictionIDDecorator attrs1))
    by now rewrite chosen_id_objs.
  destruct (pid_predict_inv _ _ _ _ _ _ _ Hd1' H1) as (s & _ & Hp).
  apply wrap_prediction_ok_fresh in H2. congruence.
Qed.



(** ** The added field in the two derived schemas *)







(** ** Wrapping does not change the wrapped component *)

Lemma more_objects_refl σ : more_objects σ σ.
Proof. split; reflexivity. Qed.

Lemma more_objects_lookup σ τ r o :
  more_objects σ τ → objs σ !! r = Some o → objs τ !! r = Some o.
Proof. intros [Hp _ _ _]. now apply prefix_lookup. Qed.

Lemma more_objects_with_class σ τ sch :
  more_objects σ τ → more_objects (with_class σ sch) (with_class τ sch).
Proof. intros [Ho Hc Hd Hu]. split; simpl; auto. now rewrite Hc. Qed.

Lemma more_objects_chosen_id data σ τ :
  more_objects σ τ →
  fst (chosen_id data τ) = fst (chosen_id data σ) ∧
  more_objects (snd (chosen_id data σ)) (snd (chosen_id data τ)).
Proof.
  intros [Ho Hc Hd Hu]. unfold chosen_id, next_uuid.
  destruct (supplied_id data); simpl.
  - split; [reflexivity | now split].
  - rewrite Hd, Hu. split; [reflexivity |]. split; simpl; auto.
Qed.

Lemma links_down_allocated σ r k d w :
  links_down (objs σ) → objs σ !! r = Some (ODecorator k d) →
  d !! "_model" = Some w → allocated σ w.
Proof.
  intros Hl Hr Hw. pose proof (Hl _ _ Hr) as Hk. simpl in Hk. rewrite Hw in Hk.
  destruct w as [|w|]; simpl; auto.
  destruct Hk as [Hlt _]. apply lookup_lt_Some in Hr. lia.
Qed.

Lemma forward_str n a d k attrs w σ :
  objs σ !! d = Some (ODecorator k attrs) →
  attrs !! "_model" = Some w →
  is_plain k = true ∨ a ≠ Description →
  getattr_str (S n) a (PRef d) σ = getattr_str n a w σ.
Proof.
  intros Hd Hw Hka. simpl. rewrite (bind_ok _ _ _ _ _ (deref_ok _ _ _ Hd)).
  destruct k, a; simpl;
    try (destruct Hka as [? | Hne]; [discriminate | now destruct Hne]);
    unfold MLModelDecorator.display_name, MLModelDecorator.qualified_name,
      MLModelDecorator.description, MLModelDecorator.version;
    now rewrite (bind_ok _ _ _ _ _ (dict_getitem_ok _ _ _ _ _ _ Hd Hw)).
Qed.

Lemma pid_description_unfold n d attrs w σ :
  objs σ !! d = Some (ODecorator KPredictionIDDecorator attrs) →
  attrs !! "_model" = Some w →
  getattr_str (S n) Description (PRef d) σ =
    (x <- getattr_str n Description w ;;
     ret (x +:+ PredictionIDDecorator.decorator_description)) σ.
Proof.
  intros Hd Hw. simpl. rewrite (bind_ok _ _ _ _ _ (deref_ok _ _ _ Hd)).
  simpl. unfold PredictionIDDecorator.description.
  now rewrite (bind_ok _ _ _ _ _ (getattr_self_ok _ _ _ _ _ _ Hd Hw)).
Qed.

(** A decorator whose [__dict__] has no [_model] fails the same way in every
    state in which it is the same object. *)
Lemma blank_str n a d k attrs :
  attrs !! "_model" = None →
  ∃ e, ∀ σ, objs σ !! d = Some (ODecorator k attrs) →
            getattr_str (S n) a (PRef d) σ = (Raise e, σ).
Proof.
  intros Hw.
  destruct k, a; eexists; intros σ Hd; simpl;
    rewrite (bind_ok _ _ _ _ _ (deref_ok _ _ _ Hd)); simpl;
    unfold MLModelDecorator.display_name, MLModelDecorator.qualified_name,
      MLModelDecorator.description, MLModelDecorator.version,
      PredictionIDDecorator.description, bind, dict_getitem, getattr_self;
    rewrite Hd, Hw; reflexivity.
Qed.

Lemma blank_schema n a d k attrs :
  attrs !! "_model" = None →
  ∃ e, ∀ σ, objs σ !! d = Some (ODecorator k attrs) →
            getattr_schema (S n) a (PRef d) σ = (Raise e, σ).
Proof.
  intros Hw.
  destruct k, a; eexists; intros σ Hd; simpl;
    rewrite (bind_ok _ _ _ _ _ (deref_ok _ _ _ Hd)); simpl;
    unfold MLModelDecorator.input_schema, MLModelDecorator.output_schema,
      PredictionIDDecorator.input_schema, PredictionIDDecorator.output_schema,
      bind, dict_getitem, getattr_self;
    rewrite Hd, Hw; reflexivity.
Qed.

Lemma same_str n : ∀ a t σ τ res σ',
  more_objects σ τ → links_down (objs σ) → allocated σ t →
  getattr_str n a t σ = (res, σ') →
  getattr_str n a t τ = (res, τ).
Proof.
  induction n as [|n IH]; intros a t σ τ res σ' Hmo Hl Ht H.
  - destruct t as [|r|kw]; simpl in *; try (now inversion H).
    destruct (lookup_lt_is_Some_2 _ _ Ht) as [o Hr].
    pose proof (more_objects_lookup _ _ _ _ Hmo Hr) as Hr'.
    rewrite (bind_ok _ _ _ _ _ (deref_ok _ _ _ Hr)) in H.
    rewrite (bind_ok _ _ _ _ _ (deref_ok _ _ _ Hr')).
    destruct o; now inversion H.
  - destruct t as [|r|kw]; try (simpl in *; now inversion H).
    destruct (lookup_lt_is_Some_2 _ _ Ht) as [o Hr].
    pose proof (more_objects_lookup _ _ _ _ Hmo Hr) as Hr'.
    destruct o as [m|k d|];
      try (simpl in *; rewrite (bind_ok _ _ _ _ _ (deref_ok _ _ _ Hr)) in H;
           rewrite (bind_ok _ _ _ _ _ (deref_ok _ _ _ Hr')); now inversion H).
    destruct (d !! "_model") as [w|] eqn:Hw.
    + pose proof (links_down_allocated _ _ _ _ _ Hl Hr Hw) as Hwa.
      assert (Hcase : (is_plain k = true ∨ a ≠ Description) ∨
                      (k = KPredictionIDDecorator ∧ a = Description)).
      { destruct k; [left; now left |].
        destruct a; try (left; right; discriminate). right. auto. }
      destruct Hcase as [Hka | [-> ->]].
      * rewrite (forward_str _ _ _ _ _ _ _ Hr Hw Hka) in H.
        rewrite (forward_str _ _ _ _ _ _ _ Hr' Hw Hka). eauto.
      * rewrite (pid_description_unfold _ _ _ _ _ Hr Hw) in H.
        rewrite (pid_description_unfold _ _ _ _ _ Hr' Hw).
        apply bind_inv in H as [(x & σ1 & H1 & H2) | (e & H1 & ->)].
        -- rewrite (bind_ok _ _ _ _ _ (IH _ _ _ _ _ _ Hmo Hl Hwa H1)).
           unfold ret in *. now inversion H2.
        -- now rewrite (bind_raise _ _ _ _ _ (IH _ _ _ _ _ _ Hmo Hl Hwa H1)).
    + destruct (blank_str n a r k d Hw) as [e He].
      rewrite (He _ Hr) in H. rewrite (He _ Hr'). now inversion H.
Qed.

Lemma same_derive c0 a σ τ res σ' :
  more_objects σ τ →
  (name <- class_name c0 ;; create_model name (pid_field a) c0) σ = (res, σ') →
  ∃ τ', (name <- class_name c0 ;; create_model name (pid_field a) c0) τ = (res, τ') ∧
        more_objects σ' τ'.
Proof.
  intros Hmo H. pose proof (mo_classes _ _ Hmo) as Hc.
  destruct (classes σ !! c0) as [sch|] eqn:Hs.
  - rewrite (derive_run _ _ _ _ Hs) in H. inversion H; subst.
    assert (Hs' : classes τ !! c0 = Some sch) by now rewrite Hc.
    rewrite (derive_run _ _ _ _ Hs'). rewrite Hc.
    eexists. split; [reflexivity | now apply more_objects_with_class].
  - unfold class_name, bind, get_class in *. rewrite Hc. rewrite Hs in *.
    inversion H; subst. eauto.
Qed.

Lemma same_schema n : ∀ a t σ τ res σ',
  more_objects σ τ → links_down (objs σ) → allocated σ t →
  getattr_schema n a t σ = (res, σ') →
  ∃ τ', getattr_schema n a t τ = (res, τ') ∧ more_objects σ' τ'.
Proof.
  induction n as [|n IH]; intros a t σ τ res σ' Hmo Hl Ht H.
  - destruct t as [|r|kw]; simpl in *; try (inversion H; subst; eauto).
    destruct (lookup_lt_is_Some_2 _ _ Ht) as [o Hr].
    pose proof (more_objects_lookup _ _ _ _ Hmo Hr) as Hr'.
    rewrite (bind_ok _ _ _ _ _ (deref_ok _ _ _ Hr)) in H.
    rewrite (bind_ok _ _ _ _ _ (deref_ok _ _ _ Hr')).
    destruct o; inversion H; subst; eauto.
  - destruct t as [|r|kw]; try (solve [simpl in *; inversion H; subst; eauto]).
    destruct (lookup_lt_is_Some_2 _ _ Ht) as [o Hr].
    pose proof (more_objects_lookup _ _ _ _ Hmo Hr) as Hr'.
    destruct o as [m|k d|];
      try (solve [simpl in *; rewrite (bind_ok _ _ _ _ _ (deref_ok _ _ _ Hr)) in H;
                  rewrite (bind_ok _ _ _ _ _ (deref_ok _ _ _ Hr'));
                  inversion H; subst; eauto]).
    destruct (d !! "_model") as [w|] eqn:Hw.
    + pose proof (links_down_allocated _ _ _ _ _ Hl Hr Hw) as Hwa.
      destruct k.
      * rewrite (base_getattr_schema _ _ _ _ Hr Hw) in H.
        rewrite (base_getattr_schema _ _ _ _ Hr' Hw). eauto.
      * rewrite (pid_schema_unfold _ _ _ _ _ _ Hr Hw) in H.
        rewrite (pid_schema_unfold _ _ _ _ _ _ Hr' Hw).
        apply bind_inv in H as [(c0 & σ1 & H1 & H2) | (e & H1 & ->)].
        -- destruct (IH _ _ _ _ _ _ Hmo Hl Hwa H1) as (τ1 & H1' & Hmo1).
           rewrite (bind_ok _ _ _ _ _ H1'). eapply same_derive; eauto.
        -- destruct (IH _ _ _ _ _ _ Hmo Hl Hwa H1) as (τ1 & H1' & Hmo1).
           rewrite (bind_raise _ _ _ _ _ H1'). eauto.
    + destruct (blank_schema n a r k d Hw) as [e He].
      rewrite (He _ Hr) in H. rewrite (He _ Hr'). inversion H; subst. eauto.
Qed.

Lemma new_instance_run c kw σ :
  new_instance c kw σ =
    (match classes σ !! c with
     | Some sch =>
         match validate_model (sfields sch) kw with
         | Ok fs => Ok (Instance c fs)
         | Raise e => Raise e
         end
     | None => Raise (SystemError "dangling class reference")
     end, σ).
Proof.
  unfold new_instance, bind, get_class, lift, ret.
  destruct (classes σ !! c) as [sch|]; [| reflexivity].
  now destruct (validate_model (sfields sch) kw).
Qed.

Lemma same_wrap n d pid p σ τ res σ' :
  more_objects σ τ → links_down (objs σ) → allocated σ (PRef d) →
  wrap_prediction n d pid p σ = (res, σ') →
  ∃ τ', wrap_prediction n d pid p τ = (res, τ') ∧ more_objects σ' τ'.
Proof.
  intros Hmo Hl Hd H. unfold wrap_prediction in *.
  apply bind_inv in H as [(c & σ1 & H1 & H2) | (e & H1 & ->)].
  - destruct (same_schema _ _ _ _ _ _ _ Hmo Hl Hd H1) as (τ1 & H1' & Hmo1).
    rewrite (bind_ok _ _ _ _ _ H1').
    unfold lift at 1 in H2. unfold lift at 1. unfold bind at 1 in H2.
    unfold bind at 1.
    destruct (call_kwargs [("prediction_id", pid)] (dict p)) as [kwargs|e].
    + rewrite new_instance_run in *. rewrite (mo_classes _ _ Hmo1).
      inversion H2; subst. eauto.
    + inversion H2; subst. eauto.
  - destruct (same_schema _ _ _ _ _ _ _ Hmo Hl Hd H1) as (τ1 & H1' & Hmo1).
    rewrite (bind_raise _ _ _ _ _ H1'). eauto.
Qed.

Lemma blank_predict n d k attrs data :
  attrs !! "_model" = None →
  ∃ e, ∀ σ, objs σ !! d = Some (ODecorator k attrs) →
            predict (S n) (PRef d) data σ =
              (Raise e, if is_plain k then σ else snd (chosen_id data σ)).
Proof.
  intros Hw. destruct k; eexists; intros σ Hd.
  - simpl. rewrite (bind_ok _ _ _ _ _ (deref_ok _ _ _ Hd)).
    unfold MLModelDecorator.predict, bind, dict_getitem. rewrite Hd, Hw.
    reflexivity.
  - rewrite (pid_predict_unfold _ _ _ _ _ Hd).
    unfold bind, getattr_self. rewrite chosen_id_objs, Hd, Hw. reflexivity.
Qed.

Lemma same_predict n : ∀ t data σ τ res σ',
  more_objects σ τ → links_down (objs σ) → allocated σ t →
  predict n t data σ = (res, σ') →
  ∃ τ', predict n t data τ = (res, τ') ∧ more_objects σ' τ'.
Proof.
  induction n as [|n IH]; intros t data σ τ res σ' Hmo Hl Ht H.
  - destruct t as [|r|kw]; simpl in *; try (solve [inversion H; subst; eauto]).
    destruct (lookup_lt_is_Some_2 _ _ Ht) as [o Hr].
    pose proof (more_objects_lookup _ _ _ _ Hmo Hr) as Hr'.
    rewrite (bind_ok _ _ _ _ _ (deref_ok _ _ _ Hr)) in H.
    rewrite (bind_ok _ _ _ _ _ (deref_ok _ _ _ Hr')).
    destruct o; inversion H; subst; eauto.
  - destruct t as [|r|kw]; try (solve [simpl in *; inversion H; subst; eauto]).
    destruct (lookup_lt_is_Some_2 _ _ Ht) as [o Hr].
    pose proof (more_objects_lookup _ _ _ _ Hmo Hr) as Hr'.
    destruct o as [m|k d|];
      try (solve [simpl in *; rewrite (bind_ok _ _ _ _ _ (deref_ok _ _ _ Hr)) in H;
                  rewrite (bind_ok _ _ _ _ _ (deref_ok _ _ _ Hr'));
                  inversion H; subst; eauto]).
    destruct (d !! "_model") as [w|] eqn:Hw.
    + pose proof (links_down_allocated _ _ _ _ _ Hl Hr Hw) as Hwa.
      destruct k.
      * rewrite (base_predict _ _ _ _ Hr Hw) in H.
        rewrite (base_predict _ _ _ _ Hr' Hw). eauto.
      * rewrite (pid_predict_bound _ _ _ _ _ _ Hr Hw) in H.
        rewrite (pid_predict_bound _ _ _ _ _ _ Hr' Hw).
        destruct (more_objects_chosen_id data _ _ Hmo) as [Hid Hmo0].
        rewrite Hid.
        assert (Hl0 : links_down (objs (snd (chosen_id data σ))))
          by now rewrite chosen_id_objs.
        assert (Hwa0 : allocated (snd (chosen_id data σ)) w).
        { destruct w; simpl in *; auto. now rewrite chosen_id_objs. }
        apply bind_inv in H as [(p & σ1 & H1 & H2) | (e & H1 & ->)].
        -- destruct (IH _ _ _ _ _ _ Hmo0 Hl0 Hwa0 H1) as (τ1 & H1' & Hmo1).
           rewrite (bind_ok _ _ _ _ _ H1').
           pose proof (predict_extends _ _ _ _ _ _ H1) as [Ho1 _ _ _].
           rewrite chosen_id_objs in Ho1.
           eapply same_wrap; eauto.
           ++ now rewrite Ho1.
           ++ simpl. now rewrite Ho1.
        -- destruct (IH _ _ _ _ _ _ Hmo0 Hl0 Hwa0 H1) as (τ1 & H1' & Hmo1).
           rewrite (bind_raise _ _ _ _ _ H1'). eauto.
    + destruct (blank_predict n r k d data Hw) as [e He].
      rewrite (He _ Hr) in H. rewrite (He _ Hr'). inversion H; subst.
      eexists. split; [reflexivity |].
      destruct k; simpl; [exact Hmo | apply more_objects_chosen_id, Hmo].
Qed.

Lemma init_world k model kw σ r σ1 :
  MLModelDecorator.__init__ (length (objs σ)) model kw
    (World (objs σ ++ [ODecorator k ∅]) (classes σ) (draws σ) (urandom σ)) =
    (r, σ1) →
  ∃ a, σ1 = World (objs σ ++ [ODecorator k a]) (classes σ) (draws σ) (urandom σ).
Proof.
  set (σ0 := World (objs σ ++ [ODecorator k ∅]) (classes σ) (draws σ) (urandom σ)).
  intros H. unfold MLModelDecorator.__init__ in H.
  assert (Hbad : ∀ b σ2,
            (match model with
             | PNone => ret false
             | _ => is_model <- isinstance_MLModel model ;; ret (negb is_model)
             end) σ0 = (b, σ2) → σ2 = σ0).
  { intros b σ2 Hb. destruct model as [|w|kw']; try (now inversion Hb).
    simpl in Hb. unfold bind, deref, ret in Hb.
    destruct (objs σ0 !! w); now inversion Hb. }
  apply bind_inv in H as [(bad & σ2 & Hb & H) | (e & Hb & _)].
  - apply Hbad in Hb. subst σ2. destruct bad.
    + inversion H; subst. now exists ∅.
    + unfold bind, dict_setitem in H. simpl in H.
      rewrite lookup_last in H. simpl in H.
      rewrite insert_last, lookup_last in H. inversion H; subst. simpl.
      rewrite insert_last. eauto.
  - apply Hbad in Hb. subst σ1. now exists ∅.
Qed.

Lemma construct_more_objects k model kw σ rc σc :
  construct k model kw σ = (rc, σc) → more_objects σ σc.
Proof.
  intros Hc. unfold construct in Hc.
  rewrite (bind_ok _ _ σ (length (objs σ))
             (World (objs σ ++ [ODecorator k ∅]) (classes σ) (draws σ) (urandom σ)))
    in Hc by reflexivity.
  assert (∃ a, σc = World (objs σ ++ [ODecorator k a]) (classes σ) (draws σ) (urandom σ))
    as [a ->].
  { apply bind_inv in Hc as [(u & σ1 & H1 & H2) | (e & H1 & _)].
    - unfold ret in H2. inversion H2; subst. eapply init_world; eauto.
    - eapply init_world; eauto. }
  split; simpl; auto. now apply prefix_app_r.
Qed.

(** X11.  Wrapping does not change the wrapped component.  In a store whose
    wrapped references point to older instances of [MLModel], after any
    constructor call (successful or not) every component that existed
    before answers every property read and every [predict] call with the
    same outcome as before the call. *)
Theorem construction_leaves_components_unchanged k model kw σ rc σc t :
  links_down (objs σ) →
  allocated σ t →
  construct k model kw σ = (rc, σc) →
  (∀ n a, fst (getattr_str n a t σc) = fst (getattr_str n a t σ)) ∧
  (∀ n a, fst (getattr_schema n a t σc) = fst (getattr_schema n a t σ)) ∧
  (∀ n x, fst (predict n t x σc) = fst (predict n t x σ)).
Proof.
  intros Hl Ht Hc.
  pose proof (construct_more_objects _ _ _ _ _ _ Hc) as Hmo.
  split; [| split].
  - intros n a. destruct (getattr_str n a t σ) as [res σ'] eqn:H.
    now rewrite (same_str _ _ _ _ _ _ _ Hmo Hl Ht H).
  - intros n a. destruct (getattr_schema n a t σ) as [res σ'] eqn:H.
    destruct (same_schema _ _ _ _ _ _ _ Hmo Hl Ht H) as (τ' & -> & _).
    reflexivity.
  - intros n x. destruct (predict n t x σ) as [res σ'] eqn:H.
    destruct (same_predict _ _ _ _ _ _ _ Hmo Hl Ht H) as (τ' & -> & _).
    reflexivity.
Qed.

(** ** Witnesses on the deeper chains *)

Lemma identity_is_stable_through_chain_witness :
  getattr_str 2 QualifiedName (PRef 2) Stacked.layered =
    (Ok "doubler", Stacked.layered).
Proof.
  assert (Ha : QualifiedName ≠ Description) by discriminate.
  exact (identity_is_stable_through_chain 2 2
           [KMLModelDecorator; KPredictionIDDecorator] 0 Example.doubler
           Stacked.layered QualifiedName eq_refl eq_refl Ha).
Defined.

Lemma description_accumulates_clauses_witness :
  getattr_str 2 Description (PRef 2) Stacked.twice =
    (Ok ("Doubles its input." +:+ PredictionIDDecorator.decorator_description
         +:+ PredictionIDDecorator.decorator_description), Stacked.twice).
Proof.
  exact (proj1 (description_accumulates_clauses 2 2
                  [KPredictionIDDecorator; KPredictionIDDecorator] 0
                  Example.doubler Stacked.twice eq_refl eq_refl)).
Defined.

Lemma plain_chain_is_transparent_witness :
  predict 2 (PRef 2) Example.five Stacked.plain_twice =
    (Ok (Instance 1 [("b", VInt 10)]), Stacked.plain_twice).
Proof.
  exact (proj1 (plain_chain_is_transparent 2 2
                  [KMLModelDecorator; KMLModelDecorator] 0 Example.doubler
                  Stacked.plain_twice eq_refl eq_refl eq_refl) Example.five).
Defined.

Lemma wrapped_prediction_id_clashes_witness :
  fst (predict 3 (PRef 2) Example.five Stacked.twice) = Raise clash_error.
Proof.
  set (σ0 := snd (chosen_id Example.five Stacked.twice)).
  set (p := Instance 2 [("b", VInt 10);
                        ("prediction_id",
                         VStr (UUID_str (next_uuid (after_draw Stacked.twice))))]).
  assert (H1 : predict 2 (PRef 1) Example.five σ0 =
               (Ok p, snd (predict 2 (PRef 1) Example.five σ0)))
    by (vm_compute; reflexivity).
  assert (Hs : is_Some (assoc "prediction_id" (fields p))) by (eexists; reflexivity).
  assert (Hc : getattr_schema 2 OutputSchema (PRef 2)
                 (snd (predict 2 (PRef 1) Example.five σ0)) =
               (Ok 4, snd (getattr_schema 2 OutputSchema (PRef 2)
                             (snd (predict 2 (PRef 1) Example.five σ0)))))
    by (vm_compute; reflexivity).
  rewrite (wrapped_prediction_id_clashes 2 2 (Example.bound_to (PRef 1)) (PRef 1)
             Example.five Stacked.twice p _ 4 _ eq_refl eq_refl H1 Hs Hc).
  reflexivity.
Defined.

Lemma doubly_decorated_never_returns_witness :
  ∃ e, fst (predict 3 (PRef 2) Example.five Stacked.twice) = Raise e.
Proof.
  exact (doubly_decorated_never_returns 3 2 (Example.bound_to (PRef 1)) 1
           (Example.bound_to (PRef 0)) Example.five Stacked.twice _ _
           eq_refl eq_refl eq_refl (surjective_pairing _)).
Defined.




Lemma construction_leaves_components_unchanged_witness :
  fst (predict 2 (PRef 1) (Example.five_with (VStr "X"))
         (snd (construct KMLModelDecorator (PRef 1) [] Example.identified))) =
  fst (predict 2 (PRef 1) (Example.five_with (VStr "X")) Example.identified).
Proof.
  assert (Hl : links_down (objs Example.identified)).
  { intros r o Hr. destruct r as [|[|r]]; inversion Hr; subst; [exact I |].
    unfold link_ok.
    rewrite (eq_refl : Example.bound_to (PRef 0) !! "_model" = Some (PRef 0)).
    split; [lia |]. exists (OModel Example.doubler). split; reflexivity. }
  assert (Ht : allocated Example.identified (PRef 1)) by (simpl; lia).
  destruct (construction_leaves_components_unchanged KMLModelDecorator (PRef 1) []
              Example.identified _ _ (PRef 1) Hl Ht (surjective_pairing _))
    as (_ & _ & Hp).
  apply Hp.
Defined.
